(** * Retrieval services of the AI chat application

    A shallow embedding of the Python retrieval ("RAG") services:
    - [src/py_rag/simple_working_rag.py]  (module [SimpleWorkingRag]),
    - [src/py_rag/simple_rag_service.py]  (module [SimpleRagService]),
    - [src/services/ragPipelineService.py] (module [RagPipelineService]),
    - [src/py_rag/local_rag_service.py]   (module [LocalRagService]),
    - [src/py_rag/rag_impl.py], the file ingester (module [RagImpl]),
    with Python's built-ins in [Py] and the standard library's sequence
    matcher in [Difflib], followed by the properties of chunking, ranking,
    scoring, the pre-filters, error results and tenant isolation.

    Conventions.  Document text is a list of characters ([str]); the
    character tables ([lower], [isspace], [isword]) are Python's on code
    points below 128.  User ids, paths and sources are [string]s.  A float is
    held as the rational it denotes; the lexical score that the per-user
    query ranks is computed with the rounding of Python's floats ([Float64]),
    and [simple_similarity] is its value in exact arithmetic.  A call that
    can raise returns an [outcome]. *)

From Stdlib Require Import QArith Qround Lqa Ascii.
From stdpp Require Import gmap strings list sorting pretty.

Local Open Scope nat_scope.

Abbreviation str := (list ascii) (only parsing).

(** Result of a call that may raise: the exception is kept by class name. *)
Inductive outcome (A : Type) : Type :=
  | Ok (a : A)
  | Raise (exn_class : string).
Arguments Ok {A} a.
Arguments Raise {A} exn_class.

(** ** Python primitives used by the services *)
Module Py.

Definition text_of (s : string) : str := String.list_ascii_of_string s.

Definition code (c : ascii) : nat := nat_of_ascii c.

(** [str.lower] on one character: [A-Z] moves to [a-z]. *)
Definition lower_char (c : ascii) : ascii :=
  if (65 <=? code c) && (code c <=? 90) then ascii_of_nat (code c + 32) else c.

Definition lower (s : str) : str := lower_char <$> s.

(** [str.isspace]: tab, line feed, vertical tab, form feed, carriage
    return, the four separators 28..31 and the space. *)
Definition isspace (c : ascii) : bool :=
  ((9 <=? code c) && (code c <=? 13)) || ((28 <=? code c) && (code c <=? 32)).

(** The regular expression class [\w]: letters, digits and underscore. *)
Definition isword (c : ascii) : bool :=
  ((48 <=? code c) && (code c <=? 57))
  || ((65 <=? code c) && (code c <=? 90))
  || ((97 <=? code c) && (code c <=? 122))
  || (code c =? 95).

Definition flush (acc : str) : list str :=
  match acc with [] => [] | _ => [reverse acc] end.

(** Maximal runs of characters satisfying [p], left to right; [acc] holds
    the run being read, newest character first. *)
Fixpoint runs_go (p : ascii → bool) (acc : str) (s : str) : list str :=
  match s with
  | [] => flush acc
  | c :: s' =>
      if p c then runs_go p (c :: acc) s'
      else flush acc ++ runs_go p [] s'
  end.

Definition runs (p : ascii → bool) (s : str) : list str := runs_go p [] s.

(** [s.split()]: the maximal runs of non-space characters. *)
Definition split (s : str) : list str := runs (λ c, negb (isspace c)) s.

(** [re.findall(r'\w+', s)]. *)
Definition findall_w (s : str) : list str := runs isword s.

Fixpoint starts_with (needle hay : str) : bool :=
  match needle, hay with
  | [], _ => true
  | _ :: _, [] => false
  | a :: n', b :: h' => bool_decide (a = b) && starts_with n' h'
  end.

(** [needle in hay] on strings: substring test. *)
Fixpoint contains (needle hay : str) : bool :=
  starts_with needle hay ||
  match hay with
  | [] => false
  | _ :: h' => contains needle h'
  end.

(** [range(start, stop, step)] for a positive step, unrolled at most
    [fuel] times. *)
Fixpoint range_from (fuel i stop step : nat) : list nat :=
  match fuel with
  | 0 => []
  | S fuel' =>
      if decide (i < stop) then i :: range_from fuel' (i + step) stop step
      else []
  end.

Definition range3 (start stop step : nat) : list nat :=
  range_from stop start stop step.

(** [l[i:j]] for [0 <= i <= j]. *)
Definition slice {A} (l : list A) (i j : nat) : list A := take (j - i) (drop i l).

(** [l[:k]] for any integer [k]: a negative [k] counts from the end. *)
Definition slice_to {A} (l : list A) (k : Z) : list A :=
  if decide (0 ≤ k)%Z then take (Z.to_nat k) l
  else take (length l - Z.to_nat (- k)) l.

(** [f"doc_{i}"]. *)
Definition doc_id (i : nat) : string := "doc_" +:+ pretty i.

(** [x or d] for an optional string: [None] and the empty string are
    falsy. *)
Definition or_else (x : option string) (d : string) : string :=
  match x with
  | Some s => if decide (s = "") then d else s
  | None => d
  end.

End Py.

(** ** Chunking: [[text[i:i+1000] for i in range(0, len(text), 1000)]] *)

Definition CHUNK_SIZE : nat := 1000.

Definition chunks_of {A} (n : nat) (t : list A) : list (list A) :=
  (λ i, Py.slice t i (i + n)) <$> Py.range3 0 (length t) n.

Definition chunk_text (t : str) : list str := chunks_of CHUNK_SIZE t.

(** Ceiling of [a / b] on naturals. *)
Definition ceil_div (a b : nat) : nat := (a + b - 1) / b.

(** ** Rational scores *)

Definition Qnat (n : nat) : Q := inject_Z (Z.of_nat n).

(** Python's true division of two non-negative integers ([b] is not 0 at
    every use), as the exact quotient; [Float64.true_div] below is the
    quotient rounded to a float. *)
Definition true_div (a b : nat) : Q := (Qnat a / Qnat b)%Q.

(** Order of the tuples [(score, index)]: scores first, then indices. *)
Definition tuple_cmp (x y : Q * nat) : comparison :=
  match (x.1 ?= y.1)%Q with
  | Eq => Nat.compare x.2 y.2
  | c => c
  end.

Definition tuple_geb (x y : Q * nat) : bool :=
  match tuple_cmp x y with Lt => false | _ => true end.

Definition tuple_ge : relation (Q * nat) := λ x y, tuple_geb x y.

Global Instance tuple_ge_dec x y : Decision (tuple_ge x y).
Proof. unfold tuple_ge. apply _. Defined.

(** ** Python's [float]: IEEE 754 binary64

    A float is held as the rational it denotes, so that floats compare as
    rationals do.  [round] is rounding to the nearest binary64 value, ties
    to the even significand, with the subnormal spacing below [2^-1022];
    overflow is not modelled (a score never leaves [[0, 2^64]]). *)
Module Float64.

Definition pow2 (e : Z) : Q :=
  if decide (0 ≤ e)%Z then inject_Z (2 ^ e) else (/ inject_Z (2 ^ (- e)))%Q.

(** The binary exponent [e] of a positive rational: [2^e <= q < 2^(e+1)]. *)
Definition exponent (q : Q) : Z :=
  let e := (Z.log2 (Qnum q) - Z.log2 (Z.pos (Qden q)))%Z in
  if Qle_bool (pow2 e) q then e else (e - 1)%Z.

(** The nearest integer, a tie going to the even one. *)
Definition nearest_even (q : Q) : Z :=
  let n := Qfloor q in
  match (q - inject_Z n ?= 1 # 2)%Q with
  | Lt => n
  | Gt => (n + 1)%Z
  | Eq => if Z.even n then n else (n + 1)%Z
  end.

(** A positive rational rounded to 53 significant bits. *)
Definition round_pos (q : Q) : Q :=
  let e := Z.max (exponent q) (-1022) in
  let ulp := pow2 (e - 52) in
  Qred (inject_Z (nearest_even (q / ulp)) * ulp).

Definition round (q : Q) : Q :=
  match (q ?= 0)%Q with
  | Eq => 0%Q
  | Gt => round_pos q
  | Lt => (- round_pos (- q))%Q
  end.

(** [x + y], [x * y] and [x / y] on floats ([y] is not 0 at every use). *)
Definition add (x y : Q) : Q := round (x + y).
Definition mul (x y : Q) : Q := round (x * y).
Definition div (x y : Q) : Q := round (x / y).

(** [float(n)], the conversion applied to an [int] operand. *)
Definition of_nat (n : nat) : Q := round (Qnat n).

(** [a / b] on two [int]s: the correctly rounded quotient. *)
Definition true_div (a b : nat) : Q := round (Qnat a / Qnat b).

(** A decimal literal such as [0.7]: the nearest float. *)
Definition literal (q : Q) : Q := round q.

End Float64.

(** [l.sort(reverse=True)] on a list of such tuples. *)
Definition sort_reverse (l : list (Q * nat)) : list (Q * nat) :=
  merge_sort tuple_ge l.

(** The JSON object returned by every [query]. *)
Record QueryResult (M : Type) : Type := mk_result {
  ids : list string;
  distances : list Q;
  metadatas : list M;
  documents : list str
}.
Arguments mk_result {M} _ _ _ _.
Arguments ids {M} _.
Arguments distances {M} _.
Arguments metadatas {M} _.
Arguments documents {M} _.

Definition empty_result {M} : QueryResult M := mk_result [] [] [] [].

(** [[xs[i] for i in idxs]]: the first index out of range raises. *)
Fixpoint index_all {A} (xs : list A) (idxs : list nat) : outcome (list A) :=
  match idxs with
  | [] => Ok []
  | i :: idxs' =>
      match xs !! i with
      | None => Raise "IndexError"
      | Some x =>
          match index_all xs idxs' with
          | Ok r => Ok (x :: r)
          | Raise e => Raise e
          end
      end
  end.

(** ** The standard library's [difflib.SequenceMatcher(None, a, b)]

    Model of the matcher as the service uses it: no junk predicate, the
    automatic junk heuristic on. *)
Module Difflib.

Fixpoint indices_from (j : nat) (c : ascii) (b : str) : list nat :=
  match b with
  | [] => []
  | x :: b' => (if decide (x = c) then [j] else []) ++ indices_from (S j) c b'
  end.

(** An element is popular when [b] has at least 200 elements and it
    occurs more than [len(b) // 100 + 1] times; popular elements are removed
    from [b2j]. *)
Definition popular (b : str) (c : ascii) : bool :=
  (200 <=? length b) && (length b / 100 + 1 <? length (indices_from 0 c b)).

(** [b2j.get(c, [])]. *)
Definition b2j_get (b : str) (c : ascii) : list nat :=
  if popular b c then [] else indices_from 0 c b.

(** [j2len.get(j-1, 0)]. *)
Definition prev_len (j2len : gmap nat nat) (j : nat) : nat :=
  match j with
  | 0 => 0
  | S j' => default 0 (j2len !! j')
  end.

(** The inner loop of [find_longest_match] for one [i]. *)
Fixpoint scan_row (blo bhi i : nat) (j2len : gmap nat nat) (js : list nat)
    (newj2len : gmap nat nat) (best : nat * nat * nat)
    : gmap nat nat * (nat * nat * nat) :=
  match js with
  | [] => (newj2len, best)
  | j :: js' =>
      if decide (j < blo) then scan_row blo bhi i j2len js' newj2len best
      else if decide (bhi ≤ j) then (newj2len, best)
      else
        let k := prev_len j2len j + 1 in
        scan_row blo bhi i j2len js' (<[j:=k]> newj2len)
          (if decide (best.2 < k) then (i + 1 - k, j + 1 - k, k) else best)
  end.

Definition scan (a b : str) (alo ahi blo bhi : nat) : nat * nat * nat :=
  (foldl (λ (st : gmap nat nat * (nat * nat * nat)) i,
            match a !! i with
            | Some c => scan_row blo bhi i st.1 (b2j_get b c) ∅ st.2
            | None => st
            end)
         (∅, (alo, blo, 0)) (seq alo (ahi - alo))).2.

(** Extension of the block to the left, then to the right. *)
Fixpoint extend_left (fuel : nat) (a b : str) (alo blo : nat)
    (best : nat * nat * nat) : nat * nat * nat :=
  match fuel with
  | 0 => best
  | S fuel' =>
      let '(besti, bestj, bestsize) := best in
      if decide (alo < besti ∧ blo < bestj ∧
                 is_Some (a !! (besti - 1)) ∧ a !! (besti - 1) = b !! (bestj - 1))
      then extend_left fuel' a b alo blo (besti - 1, bestj - 1, bestsize + 1)
      else best
  end.

Fixpoint extend_right (fuel : nat) (a b : str) (ahi bhi : nat)
    (best : nat * nat * nat) : nat * nat * nat :=
  match fuel with
  | 0 => best
  | S fuel' =>
      let '(besti, bestj, bestsize) := best in
      if decide (besti + bestsize < ahi ∧ bestj + bestsize < bhi ∧
                 is_Some (a !! (besti + bestsize)) ∧
                 a !! (besti + bestsize) = b !! (bestj + bestsize))
      then extend_right fuel' a b ahi bhi (besti, bestj, bestsize + 1)
      else best
  end.

Definition find_longest_match (a b : str) (alo ahi blo bhi : nat)
    : nat * nat * nat :=
  extend_right (length a) a b ahi bhi
    (extend_left (length a) a b alo blo (scan a b alo ahi blo bhi)).

(** Sum of the sizes of the blocks of [get_matching_blocks]: the longest
    block of the window, then the windows left and right of it. *)
Fixpoint matched (fuel : nat) (a b : str) (alo ahi blo bhi : nat) : nat :=
  match fuel with
  | 0 => 0
  | S fuel' =>
      let '(i, j, k) := find_longest_match a b alo ahi blo bhi in
      if decide (k = 0) then 0
      else
        k
        + (if decide (alo < i ∧ blo < j) then matched fuel' a b alo i blo j else 0)
        + (if decide (i + k < ahi ∧ j + k < bhi)
           then matched fuel' a b (i + k) ahi (j + k) bhi else 0)
  end.

Definition matches (a b : str) : nat :=
  matched (S (length a)) a b 0 (length a) 0 (length b).

(** [ratio()]: [2.0 * matches / length], and [1.0] for two empty
    sequences. *)
Definition ratio (a b : str) : Q :=
  let total := length a + length b in
  if decide (total = 0) then 1%Q
  else (2 * Qnat (matches a b) / Qnat total)%Q.

(** [ratio()] as the interpreter computes it, in floats. *)
Definition ratio_float (a b : str) : Q :=
  let total := length a + length b in
  if decide (total = 0) then 1%Q
  else Float64.div (Float64.mul 2 (Float64.of_nat (matches a b)))
                   (Float64.of_nat total).

End Difflib.

(** The JSON object returned by [ingest]. *)
Record IngestResponse : Type := mk_ingest {
  count : nat;
  ingest_ids : list string;
  error : option string
}.

(** ** [simple_working_rag.py]: one global in-memory store *)
Module SimpleWorkingRag.
Section with_reader.

(** [_read_text_file]: the text of the file at a path, and the empty text
    when the file cannot be read or decoded. *)
Variable read_text_file : string → str.

Record Meta : Type := mk_meta { meta_source : string; meta_user_id : string }.

(** The module globals [documents] and [metadatas]. *)
Record Store : Type := mk_store {
  st_documents : list str;
  st_metadatas : list Meta
}.

Definition init : Store := mk_store [] [].

Record IngestRequest : Type := mk_ingest_request {
  file_path : string;
  source : option string;
  ingest_user_id : option string
}.

Record QueryRequest : Type := mk_query_request {
  query_text : str;
  top_k : Z;
  query_user_id : option string
}.

Definition ingest (st : Store) (req : IngestRequest)
    : outcome IngestResponse * Store :=
  if decide (file_path req = "") then (Raise "HTTPException", st)
  else
    let text := read_text_file (file_path req) in
    match text with
    | [] =>
        (Ok (mk_ingest 0 [] (Some ("No readable text in " +:+ file_path req))), st)
    | _ :: _ =>
        let chunks := chunk_text text in
        let start_idx := length (st_documents st) in
        let documents' := st_documents st ++ chunks in
        let meta := mk_meta (Py.or_else (source req) (file_path req))
                            (Py.or_else (ingest_user_id req) "default") in
        let metadatas' := st_metadatas st ++ ((λ _, meta) <$> chunks) in
        (Ok (mk_ingest (length chunks)
               (Py.doc_id <$> seq start_idx (length documents' - start_idx))
               None),
         mk_store documents' metadatas')
    end.

(** The score of one document: shared words over query words. *)
Definition keyword_score (query_lower : str) (doc : str) : Q :=
  let doc_lower := Py.lower doc in
  let query_words : gset str := list_to_set (Py.split query_lower) in
  let doc_words : gset str := list_to_set (Py.split doc_lower) in
  let common_words := query_words ∩ doc_words in
  true_div (size common_words) (Nat.max (size query_words) 1).

Definition positive (q : Q) : bool :=
  match (0 ?= q)%Q with Lt => true | _ => false end.

(** The loop over [enumerate(documents)], from index [i]. *)
Fixpoint scored_from (i : nat) (query_lower : str) (docs : list str)
    : list (Q * nat) :=
  match docs with
  | [] => []
  | doc :: docs' =>
      let score := keyword_score query_lower doc in
      (if positive score then [(score, i)] else [])
      ++ scored_from (S i) query_lower docs'
  end.

Definition top_results (st : Store) (req : QueryRequest) : list (Q * nat) :=
  let query_lower := Py.lower (query_text req) in
  let results := scored_from 0 query_lower (st_documents st) in
  Py.slice_to (sort_reverse results) (top_k req).

Definition query (st : Store) (req : QueryRequest) : outcome (QueryResult Meta) :=
  match st_documents st with
  | [] => Ok empty_result
  | _ :: _ =>
      let top := top_results st req in
      match index_all (st_metadatas st) (snd <$> top) with
      | Raise e => Raise e
      | Ok metas =>
          match index_all (st_documents st) (snd <$> top) with
          | Raise e => Raise e
          | Ok docs =>
              Ok (mk_result (Py.doc_id <$> (snd <$> top)) (fst <$> top) metas docs)
          end
      end
  end.

Definition clear_index (st : Store) : Store := mk_store [] [].

(** [health()["documents_count"]] and [stats()["total_documents"]]. *)
Definition documents_count (st : Store) : nat := length (st_documents st).

End with_reader.
End SimpleWorkingRag.

(** ** [simple_rag_service.py]: one store per user *)
Module SimpleRagService.

(** A metadata dictionary with the keys ["text"], ["source"] and
    ["user_id"]. *)
Record Meta : Type := mk_meta {
  meta_text : str;
  meta_source : string;
  meta_user_id : string
}.

Global Instance Meta_inhabited : Inhabited Meta := populate (mk_meta [] "" "").

Definition set_user_id (user_id : string) (m : Meta) : Meta :=
  mk_meta (meta_text m) (meta_source m) user_id.

(** Metadata dictionaries are mutable objects shared by reference: the
    store keeps them in [heap] and the per-user lists hold their
    addresses.  An address is an index into [heap]. *)
Record SimpleRAG : Type := mk_rag {
  heap : list Meta;
  user_documents : gmap string (list str);
  user_metadatas : gmap string (list nat)
}.

Definition init : SimpleRAG := mk_rag [] ∅ ∅.

Inductive Response : Type :=
  | IngestError (r : IngestResponse)
  | Added (count total : nat).

Definition get_user_document_count (s : SimpleRAG) (user_id : string) : nat :=
  length (default [] (user_documents s !! user_id)).

(** The metadata of a user as the dictionaries read today. *)
Definition user_metas (s : SimpleRAG) (user_id : string) : list Meta :=
  (λ l, heap s !!! l) <$> default [] (user_metadatas s !! user_id).

(** [add_documents(texts, user_id, metadatas)]; [metadatas] is [None] or a
    list of addresses of dictionaries the caller built. *)
Definition add_documents (s : SimpleRAG) (texts : list str) (user_id : string)
    (metadatas : option (list nat)) : outcome Response * SimpleRAG :=
  match texts with
  | [] => (Ok (Added 0 (get_user_document_count s user_id)), s)
  | _ :: _ =>
      let '(heap1, metadatas1) :=
        match metadatas with
        | None =>
            (heap s ++ imap (λ i t, mk_meta t (Py.doc_id i) user_id) texts,
             seq (length (heap s)) (length texts))
        | Some ms =>
            (foldl (λ h l, alter (set_user_id user_id) l h) (heap s) ms, ms)
        end in
      let '(docs1, metas1) :=
        match user_documents s !! user_id with
        | Some _ => (user_documents s, user_metadatas s)
        | None => (<[user_id := []]> (user_documents s),
                   <[user_id := []]> (user_metadatas s))
        end in
      let docs2 := <[user_id := default [] (docs1 !! user_id) ++ texts]> docs1 in
      match metas1 !! user_id with
      | None => (Raise "KeyError", mk_rag heap1 docs2 metas1)
      | Some ms =>
          let metas2 := <[user_id := ms ++ metadatas1]> metas1 in
          (Ok (Added (length texts) (length (default [] (docs2 !! user_id)))),
           mk_rag heap1 docs2 metas2)
      end
  end.

(** [simple_similarity(query, text)]: the value of the expression in exact
    arithmetic, which the float computed by the interpreter
    ([simple_similarity_float] below) approximates. *)
Definition simple_similarity (query text : str) : Q :=
  let query_lower := Py.lower query in
  let text_lower := Py.lower text in
  let query_words : gset str := list_to_set (Py.findall_w query_lower) in
  let text_words : gset str := list_to_set (Py.findall_w text_lower) in
  if decide (query_words = ∅) then 0%Q
  else
    let common_words := query_words ∩ text_words in
    let word_similarity := true_div (size common_words) (size query_words) in
    let sequence_similarity := Difflib.ratio query_lower text_lower in
    (word_similarity * (7 # 10) + sequence_similarity * (3 # 10))%Q.

(** [simple_similarity(query, text)] as the interpreter computes it: the
    same expression with every operation rounded to a float.  This is the
    score that [query] sorts and returns. *)
Definition simple_similarity_float (query text : str) : Q :=
  let query_lower := Py.lower query in
  let text_lower := Py.lower text in
  let query_words : gset str := list_to_set (Py.findall_w query_lower) in
  let text_words : gset str := list_to_set (Py.findall_w text_lower) in
  if decide (query_words = ∅) then 0%Q
  else
    let common_words := query_words ∩ text_words in
    let word_similarity :=
      Float64.true_div (size common_words) (size query_words) in
    let sequence_similarity := Difflib.ratio_float query_lower text_lower in
    Float64.add (Float64.mul word_similarity (Float64.literal (7 # 10)))
                (Float64.mul sequence_similarity (Float64.literal (3 # 10))).

(** [[(simple_similarity(query, doc), i) for i, doc in enumerate(docs)]]. *)
Definition similarities (query : str) (user_docs : list str) : list (Q * nat) :=
  imap (λ i doc, (simple_similarity_float query doc, i)) user_docs.

Definition top_results (query : str) (user_docs : list str) (top_k : Z)
    : list (Q * nat) :=
  Py.slice_to (sort_reverse (similarities query user_docs)) top_k.

Definition query (s : SimpleRAG) (query : str) (user_id : string) (top_k : Z)
    : outcome (QueryResult Meta) :=
  let user_docs := default [] (user_documents s !! user_id) in
  let user_metas := default [] (user_metadatas s !! user_id) in
  match user_docs with
  | [] => Ok empty_result
  | _ :: _ =>
      let top := top_results query user_docs top_k in
      match index_all user_metas (snd <$> top) with
      | Raise e => Raise e
      | Ok locs =>
          match index_all user_docs (snd <$> top) with
          | Raise e => Raise e
          | Ok docs =>
              Ok (mk_result (Py.doc_id <$> (snd <$> top)) (fst <$> top)
                    ((λ l, heap s !!! l) <$> locs) docs)
          end
      end
  end.

Definition clear_user_documents (s : SimpleRAG) (user_id : string) : SimpleRAG :=
  mk_rag (heap s) (delete user_id (user_documents s))
         (delete user_id (user_metadatas s)).

(** [health()["documents_count"]] and [stats()["total_documents"]]:
    [len(rag.user_documents)], the number of keys of the dictionary. *)
Definition documents_count (s : SimpleRAG) : nat := size (user_documents s).

(** The [/clear] endpoint: [rag = SimpleRAG()]. *)
Definition clear_index (s : SimpleRAG) : SimpleRAG := init.

Section with_reader.
Variable read_text_file : string → str.

Definition ingest_file (s : SimpleRAG) (file_path : string)
    (source user_id : option string) : outcome Response * SimpleRAG :=
  let text := read_text_file file_path in
  match text with
  | [] =>
      (Ok (IngestError
             (mk_ingest 0 [] (Some ("No readable text in " +:+ file_path)))), s)
  | _ :: _ =>
      let chunks := chunk_text text in
      let meta := mk_meta text (Py.or_else source file_path)
                          (Py.or_else user_id "default") in
      let l := length (heap s) in
      let s1 := mk_rag (heap s ++ [meta]) (user_documents s) (user_metadatas s) in
      let metadatas := (λ _, l) <$> chunks in
      add_documents s1 chunks (Py.or_else user_id "default") (Some metadatas)
  end.

(** The [/ingest] endpoint. *)
Definition ingest (s : SimpleRAG) (file_path : string)
    (source user_id : option string) : outcome Response * SimpleRAG :=
  if decide (file_path = "") then (Raise "HTTPException", s)
  else ingest_file s file_path source user_id.

End with_reader.

(** References stored for the users point into the heap. *)
Definition wf (s : SimpleRAG) : Prop :=
  ∀ u ms l, user_metadatas s !! u = Some ms → l ∈ ms → l < length (heap s).

End SimpleRagService.

(** ** [ragPipelineService.py]: the command-line pipeline *)
Module RagPipelineService.

Definition conversational_keywords : list str :=
  Py.text_of <$>
    ["hello"; "hi"; "hey"; "thanks"; "thank you"; "goodbye"; "bye";
     "how are you"; "what's up"; "nice to meet you"; "good morning";
     "good afternoon"; "good evening"; "good night"]%string.

Definition translation_keywords : list str :=
  Py.text_of <$>
    ["translate"; "translation"; "spanish"; "french"; "german"; "italian";
     "portuguese"]%string.

(** [any(keyword in query_lower for keyword in keywords)]. *)
Definition any_in (keywords : list str) (query_lower : str) : bool :=
  existsb (λ keyword, Py.contains keyword query_lower) keywords.

Definition is_conversational (query_lower : str) : bool :=
  any_in conversational_keywords query_lower
  && (length (Py.split query_lower) <=? 3).

Definition is_translation (query_lower : str) : bool :=
  any_in translation_keywords query_lower.

(** [query_documents(query, documents, metadatas)]; the metadata records
    are whatever the JSON storage holds. *)
Definition query_documents {M} (query : str) (documents : list str)
    (metadatas : list M) : QueryResult M :=
  match documents with
  | [] => empty_result
  | doc0 :: _ =>
      let query_lower := Py.lower query in
      if is_conversational query_lower then empty_result
      else if is_translation query_lower then
        mk_result (Py.doc_id <$> seq 0 (length documents))
                  (replicate (length documents) 0%Q)
                  metadatas documents
      else
        mk_result ["doc_0"%string] [0%Q]
                  (match metadatas with m0 :: _ => [m0] | [] => [] end)
                  [doc0]
  end.

End RagPipelineService.

(** ** [local_rag_service.py]: embeddings and a flat inner-product index *)
Module LocalRagService.
Section with_model.

(** The scalar type of the embeddings, the embedding model
    ([SentenceTransformer.encode]) and the search of the flat index are
    external. *)
Context {scalar : Type}.

(** A two-dimensional array of shape [(length rows, ncols)]. *)
Record ndarray : Type := mk_array { ncols : nat; rows : list (list scalar) }.

(** [faiss.IndexFlatIP(d)] and the vectors added to it. *)
Record FlatIndex : Type := mk_index { index_d : nat; index_vectors : list (list scalar) }.

Variable encode : list str → ndarray.
Variable search : FlatIndex → ndarray → Z → outcome (list Q * list nat).

(** [np.vstack([a, b])]: the column counts must agree. *)
Definition vstack (a b : ndarray) : outcome ndarray :=
  if decide (ncols a = ncols b) then Ok (mk_array (ncols a) (rows a ++ rows b))
  else Raise "ValueError".

(** [index.add(x)]: asserts that the vectors have the dimension of the
    index. *)
Definition index_add (ix : FlatIndex) (x : ndarray) : outcome FlatIndex :=
  if decide (ncols x = index_d ix)
  then Ok (mk_index (index_d ix) (index_vectors ix ++ rows x))
  else Raise "AssertionError".

Record Meta : Type := mk_meta { meta_text : str; meta_source : string }.

Record LocalRAG : Type := mk_rag {
  rag_documents : list str;
  rag_metadatas : list Meta;
  embeddings : option ndarray;
  index : option FlatIndex
}.

Definition init : LocalRAG := mk_rag [] [] None None.

Inductive Response : Type := Added (count total : nat).

(** [add_documents(texts, metadatas)] for a list [texts] of the caller's
    own, given by its elements (see [add_documents_arg] for the call that
    passes the stored list). *)
Definition add_documents (s : LocalRAG) (texts : list str)
    (metadatas : option (list Meta)) : outcome Response * LocalRAG :=
  match texts with
  | [] => (Ok (Added 0 (length (rag_documents s))), s)
  | _ :: _ =>
      let metadatas1 :=
        match metadatas with
        | None => imap (λ i t, mk_meta t (Py.doc_id i)) texts
        | Some ms => ms
        end in
      let new := encode texts in
      match embeddings s with
      | None =>
          let ix := mk_index (ncols new) [] in
          match index_add ix new with
          | Raise e => (Raise e, mk_rag texts metadatas1 (Some new) (Some ix))
          | Ok ix' =>
              (Ok (Added (length texts) (length texts)),
               mk_rag texts metadatas1 (Some new) (Some ix'))
          end
      | Some old =>
          match vstack old new with
          | Raise e => (Raise e, s)
          | Ok stacked =>
              let docs := rag_documents s ++ texts in
              let metas := rag_metadatas s ++ metadatas1 in
              match index s with
              | None => (Raise "AttributeError", mk_rag docs metas (Some stacked) None)
              | Some ix =>
                  match index_add ix new with
                  | Raise e => (Raise e, mk_rag docs metas (Some stacked) (Some ix))
                  | Ok ix' =>
                      (Ok (Added (length texts) (length docs)),
                       mk_rag docs metas (Some stacked) (Some ix'))
                  end
              end
          end
      end
  end.

(** The list object passed as [texts].  The first [add_documents] keeps the
    caller's list as [self.documents] without copying it, so a caller that
    passes that list again passes the list the service holds. *)
Inductive TextsArg : Type :=
  | Fresh (texts : list str)
  | Stored.

Definition texts_of (s : LocalRAG) (arg : TextsArg) : list str :=
  match arg with
  | Fresh texts => texts
  | Stored => rag_documents s
  end.

(** [add_documents(texts, metadatas)] for either kind of list.  The
    statements run on the elements as in [add_documents]; when [texts] is
    the stored list, [self.documents.extend(texts)] lengthens [texts] as
    well, and the [len(texts)] of the answer is read after it. *)
Definition add_documents_arg (s : LocalRAG) (arg : TextsArg)
    (metadatas : option (list Meta)) : outcome Response * LocalRAG :=
  match arg with
  | Fresh texts => add_documents s texts metadatas
  | Stored =>
      match add_documents s (rag_documents s) metadatas with
      | (Ok (Added _ total), s') =>
          (Ok (Added (length (rag_documents s')) total), s')
      | r => r
      end
  end.

Definition query (s : LocalRAG) (query : str) (top_k : Z)
    : outcome (QueryResult Meta) :=
  match index s, rag_documents s with
  | None, _ | _, [] => Ok empty_result
  | Some ix, _ :: _ =>
      let query_embedding := encode [query] in
      match search ix query_embedding
              (Z.min top_k (Z.of_nat (length (rag_documents s)))) with
      | Raise e => Raise e
      | Ok (dists, indices) =>
          match index_all (rag_metadatas s) indices with
          | Raise e => Raise e
          | Ok metas =>
              match index_all (rag_documents s) indices with
              | Raise e => Raise e
              | Ok docs => Ok (mk_result (Py.doc_id <$> indices) dists metas docs)
              end
          end
      end
  end.

(** [_read_text_file] of this service: the UTF-8 text of the file, and the
    empty text when reading fails. *)
Variable read_text_file : string → str.

Inductive IngestResult : Type :=
  | IngestError (r : IngestResponse)
  | Ingested (r : Response).

Definition ingest_file (s : LocalRAG) (file_path : string) (source : option string)
    : outcome IngestResult * LocalRAG :=
  let text := read_text_file file_path in
  match text with
  | [] =>
      (Ok (IngestError
             (mk_ingest 0 [] (Some ("No readable text in " +:+ file_path)))), s)
  | _ :: _ =>
      let chunks := chunk_text text in
      let meta := mk_meta text (Py.or_else source file_path) in
      let metadatas := (λ _, meta) <$> chunks in
      match add_documents s chunks (Some metadatas) with
      | (Ok r, s') => (Ok (Ingested r), s')
      | (Raise e, s') => (Raise e, s')
      end
  end.

(** [health()["documents_count"]] and [stats()["total_documents"]]. *)
Definition documents_count (s : LocalRAG) : nat := length (rag_documents s).

End with_model.
End LocalRagService.

(** ** [rag_impl.py]: the file ingester in front of the remote vector store *)
Module RagImpl.
Section with_store.

(** The remote store and [ingest_texts], which embeds and upserts through
    the Pinecone client, are external. *)
Context {Remote : Type}.
Variable read_text_file : string → str.

Record Meta : Type := mk_meta { meta_text : str; meta_source : string }.

Variable ingest_texts :
  Remote → list str → list Meta → outcome IngestResponse * Remote.

Definition ingest_file (r : Remote) (file_path : string) (source : option string)
    : outcome IngestResponse * Remote :=
  let text := read_text_file file_path in
  match text with
  | [] => (Ok (mk_ingest 0 [] (Some ("No readable text in " +:+ file_path))), r)
  | _ :: _ =>
      let meta := mk_meta text (Py.or_else source file_path) in
      ingest_texts r [text] [meta]
  end.

End with_store.
End RagImpl.

(** ** [rag_impl.py]: [ingest_texts] in front of the vector store client *)
Module RagImplTexts.
Section with_client.

(** The remote index, [ensure_index] (which binds [_vectorstore] or raises)
    and the client's [add_texts] (which embeds and upserts or raises) are
    external. *)
Context {Remote : Type}.
Variable ensure_index : Remote → outcome unit * Remote.
Variable add_texts :
  Remote → list str → list (gmap string str) → list string → outcome unit * Remote.

(** The module globals: whether [_vectorstore] is bound, and the remote
    index behind it. *)
Record State : Type := mk_state { vectorstore_bound : bool; remote : Remote }.

(** [if _vectorstore is None: ensure_index()]. *)
Definition bind_vectorstore (st : State) : outcome unit * State :=
  if vectorstore_bound st then (Ok (), st)
  else
    match ensure_index (remote st) with
    | (Ok _, r) => (Ok (), mk_state true r)
    | (Raise e, r) => (Raise e, mk_state false r)
    end.

(** [if "text" not in m: m["text"] = t] on one dictionary. *)
Definition set_default_text (t : str) (m : gmap string str) : gmap string str :=
  match m !! "text"%string with
  | None => <["text"%string := t]> m
  | Some _ => m
  end.

(** The loop over [enumerate(texts)].  The dictionaries are the caller's
    mutable objects and are written in place: [heap] holds them and
    [metadatas] lists their addresses, so that one dictionary may stand at
    several positions.  The writes made before an index runs out of range
    stay. *)
Fixpoint fill_text (heap : list (gmap string str)) (texts : list str)
    (metadatas : list nat) : outcome unit * list (gmap string str) :=
  match texts, metadatas with
  | [], _ => (Ok (), heap)
  | _ :: _, [] => (Raise "IndexError", heap)
  | t :: texts', a :: metadatas' =>
      fill_text (alter (set_default_text t) a heap) texts' metadatas'
  end.

(** [ingest_texts(texts, metadatas, ids)]; [metadatas] is [None] or a list
    of addresses of the caller's dictionaries in [heap]. *)
Definition ingest_texts (st : State) (heap : list (gmap string str))
    (texts : list str) (metadatas : option (list nat)) (ids : option (list string))
    : outcome IngestResponse * State * list (gmap string str) :=
  match bind_vectorstore st with
  | (Raise e, st1) => (Raise e, st1, heap)
  | (Ok _, st1) =>
      let '(filled, heap1) :=
        match metadatas with
        | None => (Ok (), heap)
        | Some ms => fill_text heap texts ms
        end in
      match filled with
      | Raise e => (Raise e, st1, heap1)
      | Ok _ =>
          let metadatas1 :=
            match metadatas with
            | None => (λ t, {[ "text"%string := t ]}) <$> texts
            | Some ms => (λ a, heap1 !!! a) <$> ms
            end in
          let ids1 :=
            match ids with
            | None => Py.doc_id <$> seq 0 (length texts)
            | Some ids => ids
            end in
          match add_texts (remote st1) texts metadatas1 ids1 with
          | (Raise e, r) => (Raise e, mk_state true r, heap1)
          | (Ok _, r) =>
              (Ok (mk_ingest (length texts) ids1 None), mk_state true r, heap1)
          end
      end
  end.

(** The dictionary [{"text": text, "source": source}] built by
    [ingest_file]. *)
Definition meta_dict (m : RagImpl.Meta) : gmap string str :=
  {[ "text"%string := RagImpl.meta_text m;
     "source"%string := Py.text_of (RagImpl.meta_source m) ]}.

(** [ingest_file] with [ingest_texts] in the place of its parameter; the
    dictionaries of the list it builds are new objects, at the addresses
    0, 1, ... of a heap of their own. *)
Definition ingest_file (read_text_file : string → str) (st : State)
    (file_path : string) (source : option string) : outcome IngestResponse * State :=
  RagImpl.ingest_file read_text_file
    (λ st texts metas,
       (ingest_texts st (meta_dict <$> metas) texts
          (Some (seq 0 (length metas))) None).1)
    st file_path source.

End with_client.
End RagImplTexts.

(** ** [_read_text_file] of the two simple services *)
Module FileReader.
Section with_files.

(** [pathlib.Path(path).suffix], [Path.read_text] (which may raise) and the
    DOCX and PDF readers (which catch their own errors and return the empty
    text) are external. *)
Variable suffix : string → str.
Variable read_text : string → outcome str.
Variable read_docx_file : string → str.
Variable read_pdf_file : string → str.

Definition read_text_file (path : string) : str :=
  let file_ext := Py.lower (suffix path) in
  if decide (file_ext = Py.text_of ".txt") then
    match read_text path with
    | Ok t => t
    | Raise _ => []
    end
  else if decide (file_ext = Py.text_of ".docx") then read_docx_file path
  else if decide (file_ext = Py.text_of ".pdf") then read_pdf_file path
  else [].

End with_files.
End FileReader.

(** ** Specification vocabulary *)

(** [chunks] cuts [t] into pieces of [n] elements: every piece is non-empty
    and at most [n] long, every piece but the last is exactly [n] long, and
    the pieces in order give [t] back. *)
Definition chunking {A} (n : nat) (t : list A) (chunks : list (list A)) : Prop :=
  concat chunks = t
  ∧ ∀ k c, chunks !! k = Some c →
      0 < length c ≤ n ∧ (S k < length chunks → length c = n).

(** [c] is the ceiling of [a / b]: the least number of [b]-sized pieces
    covering [a]. *)
Definition is_ceil (a b c : nat) : Prop :=
  a ≤ c * b ∧ (0 < c → (c - 1) * b < a).

(** The documents and the metadata addresses stored for a user. *)
Definition docs_of (s : SimpleRagService.SimpleRAG) (u : string) : list str :=
  default [] (SimpleRagService.user_documents s !! u).

Definition locs_of (s : SimpleRagService.SimpleRAG) (u : string) : list nat :=
  default [] (SimpleRagService.user_metadatas s !! u).

(** The two dictionaries have the same users, and a user has as many
    metadata entries as documents. *)
Definition aligned (s : SimpleRagService.SimpleRAG) : Prop :=
  (∀ u docs, SimpleRagService.user_documents s !! u = Some docs →
     ∃ ms, SimpleRagService.user_metadatas s !! u = Some ms
           ∧ length ms = length docs)
  ∧ (∀ u, SimpleRagService.user_documents s !! u = None →
       SimpleRagService.user_metadatas s !! u = None).

(** Reachable stores of [simple_rag_service]: stored addresses are allocated
    and the dictionaries are aligned. *)
Definition rag_inv (s : SimpleRagService.SimpleRAG) : Prop :=
  SimpleRagService.wf s ∧ aligned s.

(** The store after [ingest_file] read the non-empty text [t] for user [u]:
    one fresh metadata dictionary, shared by all the chunks. *)
Definition after_ingest (s : SimpleRagService.SimpleRAG) (t : str)
    (src u : string) : SimpleRagService.SimpleRAG :=
  SimpleRagService.mk_rag
    (SimpleRagService.heap s ++ [SimpleRagService.mk_meta t src u])
    (<[u := docs_of s u ++ chunk_text t]> (SimpleRagService.user_documents s))
    (<[u := locs_of s u ++ ((λ _, length (SimpleRagService.heap s)) <$> chunk_text t)]>
       (SimpleRagService.user_metadatas s)).

(** The lexical score as the specification words it: lowercased word
    tokens, their overlap, the sequence ratio, and the weighted sum. *)
Definition tokens (s : str) : gset str :=
  list_to_set (Py.findall_w (Py.lower s)).


Definition sequence_similarity (q c : str) : Q :=
  (2 * Qnat (Difflib.matches (Py.lower q) (Py.lower c))
   / Qnat (length (Py.lower q) + length (Py.lower c)))%Q.


(** The tuple [x] outranks [y]: a higher score, or an equal score and an
    index on the [tie] side. *)
Definition outranks (tie : nat → nat → Prop) (x y : Q * nat) : Prop :=
  (y.1 < x.1)%Q ∨ ((x.1 == y.1)%Q ∧ tie x.2 y.2).

(** A ranking by descending score, ties broken by [tie]: every entry
    outranks all later ones. *)
Definition ranked (tie : nat → nat → Prop) (top : list (Q * nat)) : Prop :=
  StronglySorted (outranks tie) top.

(** A toy embedding model whose dimension is the length of the first text,
    and a search that finds nothing. *)
Definition toy_encode (texts : list str) : LocalRagService.ndarray (scalar := Z) :=
  let d := length (default [] (head texts)) in
  LocalRagService.mk_array d ((λ _, replicate d 0%Z) <$> texts).

Definition toy_search (ix : LocalRagService.FlatIndex (scalar := Z))
    (x : LocalRagService.ndarray (scalar := Z)) (k : Z)
    : outcome (list Q * list nat) := Ok ([], []).

(** Stores of [simple_working_rag] keep one metadata entry per document. *)
Definition working_aligned (st : SimpleWorkingRag.Store) : Prop :=
  length (SimpleWorkingRag.st_metadatas st) = length (SimpleWorkingRag.st_documents st).

(** The heap and the new addresses computed by [add_documents] from its
    [metadatas] argument. *)
Definition written_metadata (s : SimpleRagService.SimpleRAG) (texts : list str)
    (u : string) (metadatas : option (list nat))
    : list SimpleRagService.Meta * list nat :=
  match metadatas with
  | None =>
      (SimpleRagService.heap s
         ++ imap (λ i t, SimpleRagService.mk_meta t (Py.doc_id i) u) texts,
       seq (length (SimpleRagService.heap s)) (length texts))
  | Some ms =>
      (foldl (λ h l, alter (SimpleRagService.set_user_id u) l h)
             (SimpleRagService.heap s) ms, ms)
  end.

(** Stores of [local_rag_service] on which documents, metadata, embedding
    rows and index vectors line up, with one dimension. *)
Definition local_consistent {scalar : Type}
    (s : LocalRagService.LocalRAG (scalar := scalar)) : Prop :=
  length (LocalRagService.rag_metadatas s) = length (LocalRagService.rag_documents s)
  ∧ match LocalRagService.embeddings s, LocalRagService.index s with
    | None, None => LocalRagService.rag_documents s = []
    | Some e, Some ix =>
        LocalRagService.ncols e = LocalRagService.index_d ix
        ∧ length (LocalRagService.rows e) = length (LocalRagService.rag_documents s)
        ∧ length (LocalRagService.index_vectors ix)
          = length (LocalRagService.rag_documents s)
    | _, _ => False
    end.



(** * Properties *)

(** ** Chunking *)
Section chunking.
Context {A : Type}.
Implicit Types (t : list A) (n i k : nat).

Lemma ceil_div_zero n : 0 < n → ceil_div 0 n = 0.
Proof.
  intros Hn. unfold ceil_div. apply Nat.div_small. lia.
Qed.

Lemma ceil_div_step n m : 0 < n → 0 < m → ceil_div m n = S (ceil_div (m - n) n).
Proof.
  intros Hn Hm. unfold ceil_div.
  destruct (decide (n ≤ m)) as [Hle|Hlt].
  - replace (m + n - 1) with ((m - n + n - 1) + 1 * n) by lia.
    rewrite Nat.div_add by lia. lia.
  - replace (m - n) with 0 by lia.
    rewrite (Nat.div_small (0 + n - 1)) by lia.
    symmetry. apply (Nat.div_unique _ _ _ (m - 1)); lia.
Qed.

Lemma ceil_div_is_ceil m n : 0 < n → is_ceil m n (ceil_div m n).
Proof.
  intros Hn. unfold is_ceil, ceil_div.
  pose proof (Nat.div_mod_eq (m + n - 1) n) as Hdm.
  pose proof (Nat.mod_upper_bound (m + n - 1) n ltac:(lia)) as Hr.
  set (q := (m + n - 1) / n) in *. set (r := (m + n - 1) mod n) in *.
  split; [nia|]. intros Hq.
  destruct q as [|q']; [lia|]. simpl. nia.
Qed.

Lemma range_from_seq fuel i stop n :
  0 < n → stop - i ≤ fuel →
  Py.range_from fuel i stop n = (λ k, i + k * n) <$> seq 0 (ceil_div (stop - i) n).
Proof.
  intros Hn. revert i. induction fuel as [|fuel IH]; intros i Hfuel; simpl.
  - replace (stop - i) with 0 by lia. by rewrite ceil_div_zero.
  - case_decide as Hlt.
    + rewrite (ceil_div_step n (stop - i)) by lia.
      rewrite IH by lia. cbn [seq fmap list_fmap].
      f_equal; [lia|].
      replace (stop - i - n) with (stop - (i + n)) by lia.
      rewrite <- fmap_S_seq, <- list_fmap_compose.
      apply list_fmap_ext. intros _ k _. simpl. lia.
    + replace (stop - i) with 0 by lia. by rewrite ceil_div_zero.
Qed.

Lemma chunks_of_seq n t :
  0 < n →
  chunks_of n t = (λ k, take n (drop (k * n) t)) <$> seq 0 (ceil_div (length t) n).
Proof.
  intros Hn. unfold chunks_of, Py.range3.
  rewrite range_from_seq by lia. rewrite Nat.sub_0_r, <- list_fmap_compose.
  apply list_fmap_ext. intros _ k _. simpl. unfold Py.slice.
  by replace (k * n + n - k * n) with n by lia.
Qed.

Lemma length_chunks_of n t : 0 < n → length (chunks_of n t) = ceil_div (length t) n.
Proof. intros Hn. by rewrite chunks_of_seq, length_fmap, length_seq. Qed.

Lemma concat_pieces n t c :
  concat ((λ k, take n (drop (k * n) t)) <$> seq 0 c) = take (c * n) t.
Proof.
  induction c as [|c IH]; [done|].
  rewrite seq_S, fmap_app, concat_app, IH. simpl. rewrite app_nil_r.
  rewrite take_take_drop. f_equal. lia.
Qed.

Lemma chunks_of_chunking n t : 0 < n → chunking n t (chunks_of n t).
Proof.
  intros Hn. pose proof (ceil_div_is_ceil (length t) n Hn) as [Hup Hlow].
  split.
  - rewrite chunks_of_seq, concat_pieces by done. by apply take_ge.
  - intros k c. rewrite length_chunks_of by done.
    rewrite chunks_of_seq by done. rewrite list_lookup_fmap.
    destruct (seq 0 (ceil_div (length t) n) !! k) as [k'|] eqn:Hk; [|done].
    apply lookup_seq in Hk as [-> Hk]. simpl. intros [= <-].
    rewrite length_take, length_drop.
    specialize (Hlow ltac:(lia)). nia.
Qed.

End chunking.

(** The scenario of the specification, with chunks of 10 characters. *)
Example chunks_of_scenario :
  chunks_of 10 (Py.text_of "hello world foo bar")
  = [Py.text_of "hello worl"; Py.text_of "d foo bar"].
Proof. reflexivity. Qed.

Lemma chunk_text_chunking (t : str) : chunking CHUNK_SIZE t (chunk_text t).
Proof. apply chunks_of_chunking. unfold CHUNK_SIZE. lia. Qed.

Lemma length_chunk_text (t : str) :
  length (chunk_text t) = ceil_div (length t) CHUNK_SIZE.
Proof. apply length_chunks_of. unfold CHUNK_SIZE. lia. Qed.

Lemma chunk_text_cons (c : ascii) (t : str) :
  ∃ c0 cs, chunk_text (c :: t) = c0 :: cs.
Proof.
  destruct (chunk_text (c :: t)) as [|c0 cs] eqn:Hc; [|by eauto].
  pose proof (length_chunk_text (c :: t)) as Hlen. rewrite Hc in Hlen.
  rewrite (ceil_div_step CHUNK_SIZE) in Hlen; [done| unfold CHUNK_SIZE; lia |simpl; lia].
Qed.

(** ** The per-user store: invariant and effect of an ingest *)
Section per_user_store.
Import SimpleRagService.
Implicit Types (s : SimpleRAG) (u : string).

Lemma rag_inv_init : rag_inv init.
Proof.
  repeat split; unfold wf; simpl; intros *; rewrite ?lookup_empty; done.
Qed.

Lemma foldl_alter_fixed {B} (f : B → B) (h : list B) (ls : list nat) :
  (∀ l, l ∈ ls → alter f l h = h) →
  foldl (λ h l, alter f l h) h ls = h.
Proof.
  induction ls as [|l ls IH]; intros Hfix; [done|]. simpl.
  rewrite Hfix by set_solver. apply IH. intros l' Hl'. apply Hfix. set_solver.
Qed.

(** [add_documents] with caller-built metadata whose [user_id] entry
    already is [u]: the heap is not changed by the writes. *)
Lemma add_documents_some s texts u ms :
  texts ≠ [] → aligned s →
  foldl (λ h l, alter (set_user_id u) l h) (heap s) ms = heap s →
  add_documents s texts u (Some ms) =
    (Ok (Added (length texts) (get_user_document_count s u + length texts)),
     mk_rag (heap s) (<[u := docs_of s u ++ texts]> (user_documents s))
            (<[u := locs_of s u ++ ms]> (user_metadatas s))).
Proof.
  intros Hne [Hal Hsame] Hheap.
  unfold add_documents, docs_of, locs_of, get_user_document_count.
  destruct texts as [|t0 texts]; [done|]. rewrite Hheap.
  destruct (user_documents s !! u) as [d|] eqn:Hd.
  - destruct (Hal u d Hd) as (ms' & Hms & _).
    rewrite Hd, Hms. cbn [default from_option id]. rewrite lookup_insert_eq.
    cbn [default from_option id]. by rewrite length_app.
  - rewrite (Hsame u Hd). rewrite !lookup_insert_eq. cbn [default from_option id].
    by rewrite !insert_insert_eq.
Qed.

Lemma ingest_file_nonempty read s path source user_id :
  aligned s → read path ≠ [] →
  let u := Py.or_else user_id "default" in
  ingest_file read s path source user_id =
    (Ok (Added (length (chunk_text (read path)))
               (get_user_document_count s u + length (chunk_text (read path)))),
     after_ingest s (read path) (Py.or_else source path) u).
Proof.
  intros Hal Hne u. unfold ingest_file.
  destruct (read path) as [|c t] eqn:Hread; [done|].
  destruct (chunk_text_cons c t) as (c0 & cs & Hchunks).
  fold u. rewrite add_documents_some.
  - done.
  - by rewrite Hchunks.
  - done.
  - cbn [heap]. apply foldl_alter_fixed.
    intros l [_ [-> _]]%list_elem_of_fmap.
    replace (length (heap s)) with (length (heap s) + 0) at 1 by lia.
    by rewrite alter_app_r.
Qed.

Lemma after_ingest_inv s t src u : rag_inv s → rag_inv (after_ingest s t src u).
Proof.
  intros (Hwf & Hal & Hsame). unfold after_ingest, docs_of, locs_of.
  split; [|split].
  - intros u' ms l. cbn. rewrite length_app. simpl.
    destruct (decide (u = u')) as [<-|Hne].
    + rewrite lookup_insert_eq. intros [= <-].
      rewrite elem_of_app, list_elem_of_fmap.
      intros [Hl|(? & -> & _)]; [|lia].
      destruct (user_metadatas s !! u) as [ms|] eqn:Hms; simpl in Hl.
      * specialize (Hwf u ms l Hms Hl). lia.
      * by apply elem_of_nil in Hl.
    + rewrite lookup_insert_ne by done. intros Hms Hl.
      specialize (Hwf u' ms l Hms Hl). lia.
  - intros u' docs. cbn.
    destruct (decide (u = u')) as [<-|Hne].
    + rewrite !lookup_insert_eq. intros [= <-]. eexists; split; [done|].
      rewrite !length_app, length_fmap. f_equal.
      destruct (user_documents s !! u) as [d|] eqn:Hd.
      * destruct (Hal u d Hd) as (ms & -> & Hlen). done.
      * by rewrite (Hsame u Hd).
    + rewrite !lookup_insert_ne by done. apply Hal.
  - intros u'. cbn.
    destruct (decide (u = u')) as [<-|Hne].
    + by rewrite lookup_insert_eq.
    + rewrite !lookup_insert_ne by done. apply Hsame.
Qed.

Lemma ingest_file_inv read s path source user_id :
  rag_inv s → rag_inv (ingest_file read s path source user_id).2.
Proof.
  intros Hinv. destruct (decide (read path = [])) as [Hread|Hread].
  - unfold ingest_file. by rewrite Hread.
  - rewrite ingest_file_nonempty by (done || apply Hinv).
    by apply after_ingest_inv.
Qed.

Lemma clear_user_documents_inv s u : rag_inv s → rag_inv (clear_user_documents s u).
Proof.
  intros (Hwf & Hal & Hsame). unfold clear_user_documents.
  split; [|split].
  - intros u' ms l. cbn. intros Hms%lookup_delete_Some. apply (Hwf u' ms l), Hms.
  - intros u' docs. cbn. intros [Hne Hd]%lookup_delete_Some.
    rewrite lookup_delete_ne by done. by apply Hal.
  - intros u'. cbn. destruct (decide (u = u')) as [<-|Hne].
    + by rewrite !lookup_delete_eq.
    + rewrite !lookup_delete_ne by done. apply Hsame.
Qed.

End per_user_store.

(** ** Ingest splits the text into chunks of 1000 characters *)

(** C1.  For every non-empty text [t] read by an ingest, the 1000-character
    chunking yields exactly ceil(len(t)/1000) chunks, each 1000 long except a
    possibly shorter (non-empty) last one, whose concatenation is [t]; the
    per-user service then holds, for the user, the old documents followed by
    these chunks, and its document count grows by ceil(len(t)/1000); the same
    holds for the global store of the simple working service. *)
Theorem ingest_chunk_count (read : string → str)
    (s : SimpleRagService.SimpleRAG) (st : SimpleWorkingRag.Store)
    (path : string) (source user_id : option string) :
  rag_inv s → path ≠ "" → read path ≠ [] →
  let t := read path in
  let n := ceil_div (length t) 1000 in
  let u := Py.or_else user_id "default" in
  is_ceil (length t) 1000 n
  ∧ length (chunk_text t) = n
  ∧ chunking 1000 t (chunk_text t)
  ∧ (∃ s',
       SimpleRagService.ingest_file read s path source user_id =
         (Ok (SimpleRagService.Added n
                (SimpleRagService.get_user_document_count s u + n)), s')
       ∧ docs_of s' u = docs_of s u ++ chunk_text t
       ∧ SimpleRagService.get_user_document_count s' u =
           SimpleRagService.get_user_document_count s u + n)
  ∧ (∃ st' ids,
       SimpleWorkingRag.ingest read st
         (SimpleWorkingRag.mk_ingest_request path source user_id) =
         (Ok (mk_ingest n ids None), st')
       ∧ SimpleWorkingRag.st_documents st' =
           SimpleWorkingRag.st_documents st ++ chunk_text t
       ∧ length (SimpleWorkingRag.st_documents st') =
           length (SimpleWorkingRag.st_documents st) + n).
Proof.
  intros [_ Hal] Hpath Hne t n u.
  assert (Hlen : length (chunk_text t) = n) by apply length_chunk_text.
  split; [apply ceil_div_is_ceil; lia|].
  split; [done|]. split; [apply chunk_text_chunking|]. split.
  - eexists. split; [|split].
    + rewrite ingest_file_nonempty by done. fold t u. by rewrite Hlen.
    + unfold after_ingest, docs_of at 1. cbn. by rewrite lookup_insert_eq.
    + unfold SimpleRagService.get_user_document_count, after_ingest. cbn.
      rewrite lookup_insert_eq. cbn. rewrite length_app, Hlen. done.
  - unfold SimpleWorkingRag.ingest. cbn [SimpleWorkingRag.file_path].
    rewrite decide_False by done. fold t.
    destruct t as [|c t'] eqn:Ht; [done|].
    eexists _, _. split; [|split].
    + rewrite Hlen. reflexivity.
    + done.
    + cbn [SimpleWorkingRag.st_documents]. by rewrite length_app, Hlen.
Qed.

Lemma ingest_chunk_count_witness :
  let read := λ _ : string, replicate 2500 "a"%char in
  let st := SimpleWorkingRag.mk_store [Py.text_of "old"] [SimpleWorkingRag.mk_meta "f" "u"] in
  is_ceil 2500 1000 3
  ∧ length (chunk_text (read "a.txt"%string)) = 3
  ∧ (∃ s', SimpleRagService.ingest_file read SimpleRagService.init "a.txt" None (Some "ann"%string)
           = (Ok (SimpleRagService.Added 3 3), s')
           ∧ SimpleRagService.get_user_document_count s' "ann" = 3)
  ∧ (∃ st' ids, SimpleWorkingRag.ingest read st
                  (SimpleWorkingRag.mk_ingest_request "a.txt" None (Some "ann"%string))
                = (Ok (mk_ingest 3 ids None), st')
                ∧ length (SimpleWorkingRag.st_documents st') = 4).
Proof.
  intros read st.
  destruct (ingest_chunk_count read SimpleRagService.init st "a.txt" None (Some "ann"%string))
    as (Hceil & Hlen & _ & (s' & Hs' & _ & Hcount) & (st' & ids' & Hst' & _ & Hn)).
  - apply rag_inv_init.
  - done.
  - done.
  - split; [exact Hceil|]. split; [exact Hlen|]. split.
    + exists s'. split; [exact Hs'|exact Hcount].
    + exists st', ids'. split; [exact Hst'|exact Hn].
Defined.

(** ** Queries on unknown or empty tenants *)

(** C4.  A query for a user that is unknown or has no documents returns the
    result with four empty arrays and does not raise; the same holds for the
    embedding service while it has no index or no documents. *)
Theorem query_unknown_or_empty_tenant {scalar : Type}
    (encode : list str → LocalRagService.ndarray)
    (search : LocalRagService.FlatIndex → LocalRagService.ndarray (scalar := scalar) → Z
              → outcome (list Q * list nat))
    (s : SimpleRagService.SimpleRAG) (ls : LocalRagService.LocalRAG)
    (q : str) (u : string) (k : Z) :
  SimpleRagService.user_documents s !! u = None
    ∨ SimpleRagService.user_documents s !! u = Some [] →
  LocalRagService.index ls = None ∨ LocalRagService.rag_documents ls = [] →
  SimpleRagService.query s q u k = Ok (mk_result [] [] [] [])
  ∧ LocalRagService.query encode search ls q k = Ok (mk_result [] [] [] []).
Proof.
  intros Hs Hls. split.
  - unfold SimpleRagService.query. by destruct Hs as [-> | ->].
  - unfold LocalRagService.query.
    destruct Hls as [-> | ->]; [done|]. by destruct (LocalRagService.index ls).
Qed.

Lemma query_unknown_or_empty_tenant_witness :
  let encode := λ _ : list str, LocalRagService.mk_array (scalar := Z) 2 [] in
  let search := λ _ _ _, Ok ([], []) in
  let s := after_ingest SimpleRagService.init (Py.text_of "hello") "a.txt" "t1" in
  SimpleRagService.query s (Py.text_of "hello") "t2" 5 = Ok (mk_result [] [] [] [])
  ∧ LocalRagService.query encode search LocalRagService.init (Py.text_of "hello") 5
    = Ok (mk_result [] [] [] []).
Proof.
  intros encode search s.
  apply (query_unknown_or_empty_tenant encode search s LocalRagService.init).
  - left. reflexivity.
  - left. reflexivity.
Defined.

(** ** Ingest of unreadable or empty sources *)

(** C5 (as amended).  When the reader yields no text, every ingest returns
    the structured result with count 0, no ids and the error message
    "No readable text in <path>", without raising, and leaves the store as it
    was. *)
Theorem ingest_unreadable {Remote : Type} (read : string → str)
    (ingest_texts : Remote → list str → list RagImpl.Meta
                    → outcome IngestResponse * Remote)
    (s : SimpleRagService.SimpleRAG) (st : SimpleWorkingRag.Store) (r : Remote)
    (path : string) (source user_id : option string) :
  read path = [] →
  let res := mk_ingest 0 [] (Some ("No readable text in " +:+ path)) in
  SimpleRagService.ingest_file read s path source user_id
    = (Ok (SimpleRagService.IngestError res), s)
  ∧ (path ≠ "" →
     SimpleWorkingRag.ingest read st
       (SimpleWorkingRag.mk_ingest_request path source user_id) = (Ok res, st))
  ∧ RagImpl.ingest_file read ingest_texts r path source = (Ok res, r).
Proof.
  intros Hread res. split; [|split].
  - unfold SimpleRagService.ingest_file. by rewrite Hread.
  - intros Hpath. unfold SimpleWorkingRag.ingest. cbn [SimpleWorkingRag.file_path].
    rewrite decide_False by done. by rewrite Hread.
  - unfold RagImpl.ingest_file. by rewrite Hread.
Qed.

Lemma ingest_unreadable_witness :
  let read := λ _ : string, [] in
  let s := after_ingest SimpleRagService.init (Py.text_of "hello") "a.txt" "t1" in
  SimpleRagService.ingest_file read s "b.pdf" None (Some "t1"%string)
  = (Ok (SimpleRagService.IngestError
           (mk_ingest 0 [] (Some "No readable text in b.pdf"%string))), s).
Proof.
  intros read s.
  apply (ingest_unreadable (Remote := unit) read (λ r _ _, (Raise "unused", r))
           s SimpleWorkingRag.init tt "b.pdf" None (Some "t1"%string)).
  reflexivity.
Defined.

(** The error message of the structured result is not the literal
    "no readable text": it names the file. *)
Lemma ingest_unreadable_message :
  let read := λ _ : string, [] in
  SimpleRagService.ingest_file read SimpleRagService.init "b.pdf" None None
  ≠ (Ok (SimpleRagService.IngestError
           (mk_ingest 0 [] (Some "no readable text"%string))),
     SimpleRagService.init)
  ∧ SimpleWorkingRag.ingest read SimpleWorkingRag.init
      (SimpleWorkingRag.mk_ingest_request "b.pdf" None None)
    ≠ (Ok (mk_ingest 0 [] (Some "no readable text"%string)), SimpleWorkingRag.init).
Proof. split; intros H; discriminate H. Qed.

(** ** The lexical similarity score *)


Lemma simple_similarity_no_tokens (q c : str) :
  tokens q = ∅ → SimpleRagService.simple_similarity q c = 0%Q.
Proof.
  intros Hq. unfold SimpleRagService.simple_similarity.
  fold (tokens q). by rewrite decide_True.
Qed.



(** ** The pre-filters of the command-line pipeline *)
Section prefilters.
Import RagPipelineService.
Context {M : Type}.
Implicit Types (query : str) (docs : list str) (metas : list M).

(** The full-context answer: every stored document, in order. *)
Lemma query_documents_translation query docs metas :
  is_conversational (Py.lower query) = false →
  is_translation (Py.lower query) = true →
  docs ≠ [] →
  query_documents query docs metas =
    mk_result (Py.doc_id <$> seq 0 (length docs))
              (replicate (length docs) 0%Q) metas docs.
Proof.
  intros Hconv Htr Hne. unfold query_documents.
  destruct docs as [|doc0 docs']; [done|]. by rewrite Hconv, Htr.
Qed.

(** C7 (as amended).  A query that contains a greeting term and has at most
    three whitespace tokens gets the all-empty result whatever the stored
    documents are; with more than three tokens the greeting filter lets it
    through, and it is then answered without any scoring or ranking: on a
    non-empty store, by the whole store for a translation request and by the
    leading document alone, with distance 0, otherwise. *)
Theorem greeting_short_circuit query docs metas :
  any_in conversational_keywords (Py.lower query) = true →
  (length (Py.split (Py.lower query)) ≤ 3 →
   query_documents query docs metas = mk_result [] [] [] [])
  ∧ (3 < length (Py.split (Py.lower query)) →
     ∀ doc0 docs', docs = doc0 :: docs' →
     query_documents query docs metas =
       if is_translation (Py.lower query)
       then mk_result (Py.doc_id <$> seq 0 (length docs))
                      (replicate (length docs) 0%Q) metas docs
       else mk_result ["doc_0"%string] [0%Q] (take 1 metas) [doc0]).
Proof.
  intros Hany. split.
  - intros Hlen. unfold query_documents.
    destruct docs as [|doc0 docs']; [done|].
    unfold is_conversational. rewrite Hany.
    by rewrite (proj2 (Nat.leb_le _ _) Hlen).
  - intros Hlen doc0 docs' ->. unfold query_documents, is_conversational.
    rewrite Hany. rewrite (proj2 (Nat.leb_gt _ _) Hlen). simpl.
    destruct (is_translation (Py.lower query)); [done|].
    by destruct metas.
Qed.

(** The full-context mode.  For a query that the greeting filter lets
    through and that contains a translation trigger, the answer lists the
    whole store: every document with its id [doc_i], and the stored metadata
    list; the function has no top-k argument that could shorten it. *)
Theorem translation_returns_corpus query docs metas :
  is_conversational (Py.lower query) = false →
  any_in translation_keywords (Py.lower query) = true →
  let r := query_documents query docs metas in
  documents r = docs
  ∧ ids r = Py.doc_id <$> seq 0 (length docs)
  ∧ (∀ i doc, docs !! i = Some doc →
       ids r !! i = Some (Py.doc_id i) ∧ documents r !! i = Some doc)
  ∧ (length metas = length docs → metadatas r = metas).
Proof.
  intros Hconv Htr r.
  destruct (decide (docs = [])) as [->|Hne].
  { repeat split; try done. by destruct metas. }
  assert (Hr : r = mk_result (Py.doc_id <$> seq 0 (length docs))
                     (replicate (length docs) 0%Q) metas docs).
  { by apply query_documents_translation. }
  rewrite Hr. cbn [documents ids metadatas].
  repeat split; try done.
  rewrite list_lookup_fmap.
  rewrite (lookup_seq_lt 0 (length docs) i); [done|].
  by eapply lookup_lt_Some.
Qed.

End prefilters.

Lemma greeting_short_circuit_witness :
  let docs := [Py.text_of "introduction"; Py.text_of "chapter 2 is about trees"] in
  let metas := ["m0"; "m1"]%string in
  RagPipelineService.query_documents (Py.text_of "Hi") docs metas
    = mk_result [] [] [] []
  ∧ RagPipelineService.query_documents
      (Py.text_of "hi, please explain chapter 2") docs metas
    = mk_result ["doc_0"%string] [0%Q] ["m0"%string] [Py.text_of "introduction"]
  ∧ RagPipelineService.query_documents
      (Py.text_of "hello, please translate chapter 2") docs metas
    = mk_result ["doc_0"; "doc_1"]%string [0%Q; 0%Q] metas docs.
Proof.
  intros docs metas. split; [|split].
  - apply (proj1 (greeting_short_circuit (Py.text_of "Hi") docs metas eq_refl)).
    vm_compute. lia.
  - apply (proj2 (greeting_short_circuit (Py.text_of "hi, please explain chapter 2")
                    docs metas eq_refl)
             ltac:(vm_compute; lia) _ _ eq_refl).
  - apply (proj2 (greeting_short_circuit
                    (Py.text_of "hello, please translate chapter 2")
                    docs metas eq_refl)
             ltac:(vm_compute; lia) _ _ eq_refl).
Defined.

(** C7 as stated fails on its second part: the query
    "hi, please explain chapter 2" passes the greeting filter and is answered
    with the first stored document, although the second one is the better
    match for both scorers and a ranking would put it first. *)
Lemma greeting_long_query_not_ranked :
  let q := Py.text_of "hi, please explain chapter 2" in
  let doc0 := Py.text_of "introduction" in
  let doc1 := Py.text_of "chapter 2 is about trees" in
  RagPipelineService.any_in RagPipelineService.conversational_keywords (Py.lower q)
    = true
  ∧ length (Py.split (Py.lower q)) = 5
  ∧ RagPipelineService.query_documents q [doc0; doc1] ["m0"; "m1"]%string
    = mk_result ["doc_0"%string] [0%Q] ["m0"%string] [doc0]
  ∧ (SimpleRagService.simple_similarity_float q doc0
     < SimpleRagService.simple_similarity_float q doc1)%Q
  ∧ (SimpleRagService.top_results q [doc0; doc1] 1).*2 = [1]
  ∧ (SimpleWorkingRag.keyword_score (Py.lower q) doc0
     < SimpleWorkingRag.keyword_score (Py.lower q) doc1)%Q.
Proof. vm_compute. repeat split. Qed.

(** C8.  The translation request "translate this file" is no greeting: none
    of its words is a greeting keyword, and the only keyword found in it is
    "hi", inside "this".  With its three tokens it is answered as a greeting
    all the same: the four arrays are empty and the stored documents are not
    returned. *)
Lemma translation_request_answered_as_greeting :
  let q := Py.text_of "translate this file" in
  let docs := [Py.text_of "hola"; Py.text_of "mundo"] in
  RagPipelineService.is_translation (Py.lower q) = true
  ∧ Py.findall_w (Py.lower q) = Py.text_of <$> ["translate"; "this"; "file"]%string
  ∧ filter (λ keyword, Py.contains keyword (Py.lower q) = true)
           RagPipelineService.conversational_keywords = [Py.text_of "hi"]
  ∧ RagPipelineService.query_documents q docs ["m0"; "m1"]%string
    = mk_result [] [] [] []
  ∧ documents (RagPipelineService.query_documents q docs ["m0"; "m1"]%string) ≠ docs.
Proof. vm_compute. repeat split. discriminate. Qed.

Lemma translation_returns_corpus_witness :
  let docs := Py.text_of <$> ["uno"; "dos"; "tres"]%string in
  let r := RagPipelineService.query_documents
             (Py.text_of "Please translate the file to French") docs [1; 2; 3] in
  documents r = docs ∧ ids r = ["doc_0"; "doc_1"; "doc_2"]%string
  ∧ metadatas r = [1; 2; 3].
Proof.
  intros docs r.
  destruct (translation_returns_corpus
              (Py.text_of "Please translate the file to French") docs [1; 2; 3]
              eq_refl eq_refl) as (Hd & Hi & _ & Hm).
  split; [exact Hd|]. split; [exact Hi|]. apply Hm. reflexivity.
Defined.

(** ** Ranking helpers shared by the services *)
Section ranking.

Lemma slice_to_subseteq {A} (l : list A) (k : Z) : Py.slice_to l k ⊆ l.
Proof. unfold Py.slice_to. case_decide; apply subseteq_take. Qed.

Lemma slice_to_nil {A} (k : Z) : Py.slice_to (@nil A) k = [].
Proof. unfold Py.slice_to. case_decide; apply take_nil. Qed.

Lemma slice_to_nonneg {A} (l : list A) (k : Z) :
  (0 ≤ k)%Z → Py.slice_to l k = take (Z.to_nat k) l.
Proof. intros Hk. unfold Py.slice_to. by rewrite decide_True. Qed.

Lemma sort_reverse_perm (l : list (Q * nat)) : sort_reverse l ≡ₚ l.
Proof. apply merge_sort_Permutation. Qed.

Lemma elem_of_sort_reverse (x : Q * nat) (l : list (Q * nat)) :
  x ∈ sort_reverse l ↔ x ∈ l.
Proof. by rewrite sort_reverse_perm. Qed.

Lemma index_all_Forall2 {A} (xs : list A) (idxs : list nat) (r : list A) :
  index_all xs idxs = Ok r → Forall2 (λ i x, xs !! i = Some x) idxs r.
Proof.
  revert r. induction idxs as [|i idxs IH]; intros r; simpl.
  - intros [= <-]. constructor.
  - destruct (xs !! i) as [x|] eqn:Hx; [|done].
    destruct (index_all xs idxs) as [r'|e]; [|done].
    intros [= <-]. constructor; [done|]. by apply IH.
Qed.

Lemma index_all_in_range {A} (xs : list A) (idxs : list nat) :
  Forall (λ i, i < length xs) idxs → ∃ r, index_all xs idxs = Ok r.
Proof.
  induction 1 as [|i idxs Hi _ [r IH]]; simpl; [by eauto|].
  destruct (lookup_lt_is_Some_2 xs i Hi) as [x Hx].
  rewrite Hx, IH. eauto.
Qed.

End ranking.

(** ** Keyword matching of the simple working service *)
Section keyword_matching.
Import SimpleWorkingRag.

Lemma true_div_zero (b : nat) : (true_div 0 b == 0)%Q.
Proof. unfold true_div, Qnat. simpl. unfold Qdiv. apply Qmult_0_l. Qed.

Lemma positive_true_div (a b : nat) : positive (true_div a b) = true → 0 < a.
Proof.
  intros Hpos. destruct a as [|a]; [|lia].
  unfold positive in Hpos.
  pose proof (true_div_zero b) as H0. symmetry in H0.
  apply Qeq_alt in H0. by rewrite H0 in Hpos.
Qed.

Lemma keyword_score_positive (query_lower doc : str) :
  positive (keyword_score query_lower doc) = true →
  ∃ w, w ∈ Py.split query_lower ∧ w ∈ Py.split (Py.lower doc).
Proof.
  intros Hpos%positive_true_div.
  apply size_pos_elem_of in Hpos as [w Hw].
  apply elem_of_intersection in Hw as [Hq Hd].
  exists w. by rewrite !elem_of_list_to_set in Hq, Hd.
Qed.

Lemma keyword_score_disjoint (query_lower doc : str) :
  (∀ w, w ∈ Py.split query_lower → w ∉ Py.split (Py.lower doc)) →
  positive (keyword_score query_lower doc) = false.
Proof.
  intros Hdisj. destruct (positive _) eqn:Hpos; [|done].
  apply keyword_score_positive in Hpos as (w & Hq & Hd). by destruct (Hdisj w).
Qed.

Lemma elem_of_scored_from (x : Q * nat) (i0 : nat) (query_lower : str)
    (docs : list str) :
  x ∈ scored_from i0 query_lower docs →
  ∃ doc, i0 ≤ x.2 ∧ docs !! (x.2 - i0) = Some doc
         ∧ x.1 = keyword_score query_lower doc ∧ positive x.1 = true.
Proof.
  revert i0. induction docs as [|doc docs IH]; intros i0; simpl.
  - by intros ?%elem_of_nil.
  - rewrite elem_of_app. intros [Hx|Hx].
    + destruct (positive (keyword_score query_lower doc)) eqn:Hpos.
      * apply list_elem_of_singleton in Hx as ->. simpl.
        exists doc. by rewrite Nat.sub_diag.
      * by apply elem_of_nil in Hx.
    + destruct (IH _ Hx) as (doc' & Hle & Hdoc & Hsc & Hpos).
      exists doc'. split; [lia|]. split; [|done].
      by replace (x.2 - i0) with (S (x.2 - S i0)) by lia.
Qed.

Lemma scored_from_disjoint (i0 : nat) (query_lower : str) (docs : list str) :
  (∀ doc, doc ∈ docs → ∀ w, w ∈ Py.split query_lower → w ∉ Py.split (Py.lower doc)) →
  scored_from i0 query_lower docs = [].
Proof.
  revert i0. induction docs as [|doc docs IH]; intros i0 Hdisj; simpl; [done|].
  rewrite keyword_score_disjoint by (apply Hdisj; set_solver).
  apply IH. intros doc' Hdoc'. apply Hdisj. set_solver.
Qed.

(** C10.  Every chunk returned by the keyword-matching query shares a
    lowercase whitespace token with the query; a query sharing no token with
    any stored chunk gets the all-empty result; and there is a non-empty
    store on which a query returns fewer than min(top_k, count) results. *)
Theorem keyword_query_shares_token (st : Store) (req : QueryRequest) :
  (∀ r n doc, query st req = Ok r → documents r !! n = Some doc →
     ∃ w, w ∈ Py.split (Py.lower (query_text req)) ∧ w ∈ Py.split (Py.lower doc))
  ∧ ((∀ doc, doc ∈ st_documents st →
        ∀ w, w ∈ Py.split (Py.lower (query_text req)) → w ∉ Py.split (Py.lower doc)) →
     query st req = Ok (mk_result [] [] [] []))
  ∧ (∃ st0 req0 r0,
       query st0 req0 = Ok r0
       ∧ (Z.of_nat (length (documents r0))
          < Z.min (top_k req0) (Z.of_nat (length (st_documents st0))))%Z).
Proof.
  split; [|split].
  - intros r n doc. unfold query.
    destruct (st_documents st) as [|d0 ds] eqn:Hdocs.
    { intros [= <-]. done. }
    destruct (index_all (st_metadatas st) _) as [metas|]; [|done].
    destruct (index_all (d0 :: ds) _) as [docs|] eqn:Hix; [|done].
    intros [= <-]. cbn [documents]. intros Hn.
    apply index_all_Forall2 in Hix.
    destruct (Forall2_lookup_r _ _ _ _ _ Hix Hn) as (i & Hi & Hdoc).
    apply list_lookup_fmap_Some in Hi as (x & -> & Hx).
    apply list_elem_of_lookup_2 in Hx. unfold top_results in Hx.
    apply slice_to_subseteq in Hx. rewrite elem_of_sort_reverse in Hx.
    apply elem_of_scored_from in Hx as (doc' & _ & Hdoc' & -> & Hpos).
    rewrite Nat.sub_0_r, Hdocs, Hdoc in Hdoc'. injection Hdoc' as <-.
    by apply keyword_score_positive.
  - intros Hdisj. unfold query, top_results.
    destruct (st_documents st) as [|d0 ds] eqn:Hdocs; [done|].
    rewrite scored_from_disjoint by done.
    change (sort_reverse []) with (@nil (Q * nat)). by rewrite slice_to_nil.
  - exists (mk_store [Py.text_of "red apple"; Py.text_of "blue sky"]
                     [mk_meta "a" "u"; mk_meta "b" "u"]),
           (mk_query_request (Py.text_of "Apple pie") 5 None).
    eexists. split; [vm_compute; reflexivity|]. vm_compute. reflexivity.
Qed.

End keyword_matching.

Lemma keyword_query_shares_token_witness :
  let st := SimpleWorkingRag.mk_store
              [Py.text_of "red apple"; Py.text_of "blue sky"]
              [SimpleWorkingRag.mk_meta "a" "u"; SimpleWorkingRag.mk_meta "b" "u"] in
  SimpleWorkingRag.query st
    (SimpleWorkingRag.mk_query_request (Py.text_of "green tea") 5 None)
  = Ok (mk_result [] [] [] []).
Proof.
  intros st.
  apply (proj1 (proj2 (keyword_query_shares_token st
     (SimpleWorkingRag.mk_query_request (Py.text_of "green tea") 5 None)))).
  intros doc Hdoc w Hw. vm_compute in Hw.
  apply elem_of_cons in Hdoc as [->|Hdoc];
    [|apply elem_of_cons in Hdoc as [->|Hdoc]; [|by apply elem_of_nil in Hdoc]];
    vm_compute; intros Hd;
    repeat (apply elem_of_cons in Hw as [->|Hw];
            [repeat (apply elem_of_cons in Hd as [Hd|Hd]; [discriminate Hd|]);
             by apply elem_of_nil in Hd|]);
    by apply elem_of_nil in Hw.
Defined.

(** ** Tenant isolation in the per-user store *)
Section isolation.
Import SimpleRagService.
Implicit Types (s : SimpleRAG) (A B : string).

Lemma index_all_elem_of {X} (xs : list X) (idxs : list nat) (r : list X) (x : X) :
  index_all xs idxs = Ok r → x ∈ r → x ∈ xs.
Proof.
  intros Hix%index_all_Forall2 [n Hn]%list_elem_of_lookup_1.
  destruct (Forall2_lookup_r _ _ _ _ _ Hix Hn) as (i & _ & Hx).
  by eapply list_elem_of_lookup_2.
Qed.

(** A query reads the documents and metadata addresses of its user, and the
    heap at these addresses only. *)
Lemma query_frame s s' (q : str) B (k : Z) :
  user_documents s' !! B = user_documents s !! B →
  user_metadatas s' !! B = user_metadatas s !! B →
  (∀ l, l ∈ locs_of s B → heap s' !!! l = heap s !!! l) →
  query s' q B k = query s q B k.
Proof.
  intros Hd Hm Hheap. unfold query. rewrite Hd, Hm.
  destruct (default [] (user_documents s !! B)) as [|d0 ds]; [done|].
  destruct (index_all (default [] (user_metadatas s !! B)) _) as [locs|] eqn:Hix;
    [|done].
  destruct (index_all (d0 :: ds) _) as [docs|]; [|done].
  do 2 f_equal. apply list_fmap_ext. intros _ l Hl%list_elem_of_lookup_2.
  apply Hheap. by eapply index_all_elem_of.
Qed.

Lemma user_metas_frame s s' B :
  user_metadatas s' !! B = user_metadatas s !! B →
  (∀ l, l ∈ locs_of s B → heap s' !!! l = heap s !!! l) →
  user_metas s' B = user_metas s B.
Proof.
  intros Hm Hheap. unfold user_metas. rewrite Hm.
  apply list_fmap_ext. intros _ l Hl%list_elem_of_lookup_2. by apply Hheap.
Qed.

Lemma heap_after_ingest s (t : str) (src : string) A B l :
  rag_inv s → l ∈ locs_of s B →
  heap (after_ingest s t src A) !!! l = heap s !!! l.
Proof.
  intros [Hwf _] Hl. unfold after_ingest. cbn [heap].
  apply lookup_total_app_l. unfold locs_of in Hl.
  destruct (user_metadatas s !! B) as [ms|] eqn:Hms; simpl in Hl.
  - by eapply Hwf.
  - by apply elem_of_nil in Hl.
Qed.

(** C9 (as amended).  In the per-user service, whatever is ingested or
    cleared for user [A] leaves the documents, the metadata and the document
    count of another user [B] as they were, and every query of [B] returns
    what it returned before.  (A query itself returns no store: it writes
    nothing.) *)
Theorem tenant_isolation (read : string → str) s A B
    (path : string) (source user_id : option string) (q : str) (k : Z) :
  rag_inv s → A ≠ B → Py.or_else user_id "default" = A →
  ∀ s', s' = (ingest_file read s path source user_id).2
        ∨ s' = clear_user_documents s A →
  docs_of s' B = docs_of s B
  ∧ user_metas s' B = user_metas s B
  ∧ get_user_document_count s' B = get_user_document_count s B
  ∧ query s' q B k = query s q B k.
Proof.
  intros Hinv Hne HA s' Hs'.
  assert (user_documents s' !! B = user_documents s !! B
          ∧ user_metadatas s' !! B = user_metadatas s !! B
          ∧ ∀ l, l ∈ locs_of s B → heap s' !!! l = heap s !!! l) as (Hd & Hm & Hh).
  { destruct Hs' as [-> | ->].
    - destruct (decide (read path = [])) as [Hread|Hread].
      + unfold ingest_file. by rewrite Hread.
      + rewrite ingest_file_nonempty by (done || apply Hinv). rewrite HA.
        cbn [snd]. split; [|split].
        * unfold after_ingest. cbn. by rewrite lookup_insert_ne.
        * unfold after_ingest. cbn. by rewrite lookup_insert_ne.
        * intros l Hl. by eapply heap_after_ingest.
    - unfold clear_user_documents. cbn. by rewrite !lookup_delete_ne. }
  split; [|split; [|split]].
  - unfold docs_of. by rewrite Hd.
  - by apply user_metas_frame.
  - unfold get_user_document_count. by rewrite Hd.
  - by apply query_frame.
Qed.

End isolation.

Lemma tenant_isolation_witness :
  let read := λ _ : string, Py.text_of "apples and pears" in
  let s := after_ingest SimpleRagService.init (Py.text_of "pears") "b.txt" "bob" in
  let s' := (SimpleRagService.ingest_file read s "a.txt" None (Some "ann"%string)).2 in
  docs_of s' "bob" = docs_of s "bob"
  ∧ SimpleRagService.user_metas s' "bob" = SimpleRagService.user_metas s "bob"
  ∧ SimpleRagService.get_user_document_count s' "bob"
    = SimpleRagService.get_user_document_count s "bob"
  ∧ SimpleRagService.query s' (Py.text_of "pears") "bob" 5
    = SimpleRagService.query s (Py.text_of "pears") "bob" 5.
Proof.
  intros read s s'.
  apply (tenant_isolation read s "ann" "bob" "a.txt" None (Some "ann"%string)).
  - apply after_ingest_inv, rag_inv_init.
  - discriminate.
  - reflexivity.
  - left. reflexivity.
Defined.

(** C9 as stated fails on the simple working service, whose store is global:
    after user "ann" ingests a file, the query of user "bob" returns ann's
    chunk, where it returned nothing before. *)
Lemma global_store_not_isolated :
  let read := λ _ : string, Py.text_of "apples and pears" in
  let st := SimpleWorkingRag.init in
  let st' := (SimpleWorkingRag.ingest read st
                (SimpleWorkingRag.mk_ingest_request "a.txt" None (Some "ann"%string))).2 in
  let req := SimpleWorkingRag.mk_query_request (Py.text_of "pears") 5 (Some "bob"%string) in
  SimpleWorkingRag.query st req = Ok (mk_result [] [] [] [])
  ∧ SimpleWorkingRag.query st' req =
      Ok (mk_result ["doc_0"%string] [1%Q]
            [SimpleWorkingRag.mk_meta "a.txt" "ann"] [Py.text_of "apples and pears"])
  ∧ SimpleWorkingRag.query st' req ≠ SimpleWorkingRag.query st req
  ∧ length (SimpleWorkingRag.st_documents st') ≠ length (SimpleWorkingRag.st_documents st).
Proof. vm_compute. repeat split; intros H; discriminate H. Qed.

(** The in-place write [meta["user_id"] = user_id] of [add_documents] reaches
    every holder of the dictionary: metadata built by a caller and handed in
    for two users ends up with the second user's id under both.
    [ingest_file] builds a fresh dictionary per call and is not affected. *)
Lemma add_documents_shared_metadata :
  let s0 := (SimpleRagService.add_documents SimpleRagService.init
               [Py.text_of "x"] "ann" None).2 in
  let s1 := (SimpleRagService.add_documents s0 [Py.text_of "y"] "bob" (Some [0])).2 in
  SimpleRagService.meta_user_id <$> SimpleRagService.user_metas s0 "ann" = ["ann"%string]
  ∧ SimpleRagService.meta_user_id <$> SimpleRagService.user_metas s1 "ann" = ["bob"%string].
Proof. vm_compute. done. Qed.

(** ** Dimension mismatch in the embedding service *)
Section dimension.
Import LocalRagService.
Context {scalar : Type}.
Variable encode : list str → ndarray (scalar := scalar).
Variable search : FlatIndex (scalar := scalar) → ndarray (scalar := scalar) → Z
                  → outcome (list Q * list nat).

(** C6 (as amended).  Once the service holds embeddings, adding texts whose
    embedding has another number of columns raises the array library's
    [ValueError] from the stacking step, before anything is written: the
    documents, metadata, embeddings and index are the prior ones, and so are
    the document count and the answer of any later query. *)
Theorem add_documents_dimension_mismatch (s : LocalRAG) (texts : list str)
    (metas : option (list Meta)) (old : ndarray) :
  embeddings s = Some old → texts ≠ [] → ncols (encode texts) ≠ ncols old →
  add_documents encode s texts metas = (Raise "ValueError", s)
  ∧ let s' := (add_documents encode s texts metas).2 in
    length (rag_documents s') = length (rag_documents s)
    ∧ ∀ q k, query encode search s' q k = query encode search s q k.
Proof.
  intros Hemb Hne Hdim.
  assert (Hadd : add_documents encode s texts metas = (Raise "ValueError", s)).
  { unfold add_documents. destruct texts as [|t0 ts]; [done|].
    rewrite Hemb. unfold vstack. rewrite decide_False by congruence. done. }
  rewrite Hadd. done.
Qed.

End dimension.

Lemma add_documents_dimension_mismatch_witness :
  let s := (LocalRagService.add_documents toy_encode LocalRagService.init
              [Py.text_of "ab"] None).2 in
  LocalRagService.add_documents toy_encode s [Py.text_of "abc"] None
  = (Raise "ValueError", s).
Proof.
  intros s.
  apply (add_documents_dimension_mismatch toy_encode toy_search s
           [Py.text_of "abc"] None (toy_encode [Py.text_of "ab"])).
  - reflexivity.
  - discriminate.
  - vm_compute. lia.
Defined.

(** C6 as stated fails on the class of the error: the mismatch surfaces as
    [ValueError]; the service defines no [DimensionMismatchError]. *)
Lemma dimension_mismatch_error_class :
  let s := (LocalRagService.add_documents toy_encode LocalRagService.init
              [Py.text_of "ab"] None).2 in
  LocalRagService.add_documents toy_encode s [Py.text_of "abc"] None
  = (Raise "ValueError", s)
  ∧ LocalRagService.add_documents toy_encode s [Py.text_of "abc"] None
    ≠ (Raise "DimensionMismatchError", s).
Proof. vm_compute. split; [reflexivity|]. intros H; discriminate H. Qed.

(** ** Floats *)

(** The rounding on values known from the interpreter: the literals [0.7]
    and [0.3], the sum [0.1 + 0.2 = 0.30000000000000004], the quotient
    [1 / 3], the tie [float(2**53 + 1) = 2.0**53] and the sum
    [0.7 + 0.3 = 1.0]. *)
Lemma float_rounding_examples :
  Float64.literal (7 # 10) = (3152519739159347 # 4503599627370496)%Q
  ∧ Float64.literal (3 # 10) = (5404319552844595 # 18014398509481984)%Q
  ∧ Float64.add (Float64.literal (1 # 10)) (Float64.literal (2 # 10))
    = (1351079888211149 # 4503599627370496)%Q
  ∧ Float64.true_div 1 3 = (6004799503160661 # 18014398509481984)%Q
  ∧ Float64.round (inject_Z (2 ^ 53 + 1)) = inject_Z (2 ^ 53)
  ∧ Float64.add (Float64.literal (7 # 10)) (Float64.literal (3 # 10)) = 1%Q.
Proof. vm_compute. repeat split. Qed.

(** ** Ranking of the per-user query *)
Section ranking_order.

Lemma tuple_ge_spec (x y : Q * nat) :
  tuple_ge x y ↔ (y.1 < x.1)%Q ∨ ((x.1 == y.1)%Q ∧ y.2 ≤ x.2).
Proof.
  unfold tuple_ge, tuple_geb, tuple_cmp.
  destruct (x.1 ?= y.1)%Q eqn:Hc.
  - apply Qeq_alt in Hc.
    destruct (Nat.compare_spec x.2 y.2) as [He|Hlt|Hgt]; simpl.
    + split; [intros _; right; split; [done|lia]|done].
    + split; [done|]. intros [Hq|[_ Hn]]; [lra|lia].
    + split; [intros _; right; split; [done|lia]|done].
  - apply Qlt_alt in Hc. simpl. split; [done|]. intros [Hq|[Hq _]]; lra.
  - apply Qgt_alt in Hc. simpl. split; [intros _; by left|done].
Qed.

Global Instance tuple_ge_total : Total tuple_ge.
Proof.
  intros x y. rewrite !tuple_ge_spec.
  destruct (Q_dec x.1 y.1) as [[Hlt|Hgt]|Heq].
  - right. by left.
  - left. by left.
  - destruct (decide (y.2 ≤ x.2)).
    + left. by right.
    + right. right. split; [by symmetry|lia].
Qed.

Global Instance tuple_ge_trans : Transitive tuple_ge.
Proof.
  intros x y z. rewrite !tuple_ge_spec.
  intros [Hxy|[Hxy Hn]] [Hyz|[Hyz Hm]].
  - left. lra.
  - left. lra.
  - left. lra.
  - right. split; [lra|lia].
Qed.

Lemma sort_reverse_sorted (l : list (Q * nat)) : StronglySorted tuple_ge (sort_reverse l).
Proof. apply StronglySorted_merge_sort; apply _. Qed.

(** With pairwise distinct indices the order is strict: ties go to the
    larger index. *)
Lemma sorted_strict (l : list (Q * nat)) :
  StronglySorted tuple_ge l → NoDup l.*2 → ranked gt l.
Proof.
  unfold ranked. induction 1 as [|x l Hl IH Hx]; intros Hnd; [constructor|].
  rewrite fmap_cons in Hnd. apply NoDup_cons in Hnd as [Hnotin Hnd].
  constructor; [by apply IH|].
  rewrite Forall_forall in Hx |- *. intros y Hy.
  specialize (Hx y Hy). apply tuple_ge_spec in Hx as [Hlt|[Heq Hle]].
  - by left.
  - right. split; [done|].
    assert (x.2 ≠ y.2); [|lia].
    intros Heq2. apply Hnotin. rewrite Heq2. by apply list_elem_of_fmap_2.
Qed.

Lemma similarities_indices (q : str) (docs : list str) :
  (SimpleRagService.similarities q docs).*2 = seq 0 (length docs).
Proof.
  unfold SimpleRagService.similarities. rewrite fmap_imap.
  rewrite <- (list_fmap_id (seq 0 (length docs))), <- (imap_seq_0 docs id).
  by apply imap_ext.
Qed.

Lemma elem_of_similarities (q : str) (docs : list str) (x : Q * nat) :
  x ∈ SimpleRagService.similarities q docs ↔
  ∃ doc, docs !! x.2 = Some doc ∧ x.1 = SimpleRagService.simple_similarity_float q doc.
Proof.
  unfold SimpleRagService.similarities. rewrite list_elem_of_lookup.
  split.
  - intros [i Hi]. apply list_lookup_imap_Some in Hi as (doc & Hdoc & ->).
    by exists doc.
  - intros (doc & Hdoc & Hsc). exists x.2.
    rewrite list_lookup_imap, Hdoc. simpl. destruct x; simpl in *. by subst.
Qed.

Lemma ranked_sorted_similarities (q : str) (docs : list str) :
  ranked gt (sort_reverse (SimpleRagService.similarities q docs)).
Proof.
  apply sorted_strict; [apply sort_reverse_sorted|].
  rewrite sort_reverse_perm, similarities_indices. apply NoDup_seq.
Qed.

End ranking_order.

Section per_user_query.
Import SimpleRagService.

(** The answer of the command-line pipeline to a query that passes neither
    pre-filter: the leading document, whatever the query says. *)
Lemma query_documents_other {M} (query : str) (doc0 : str) (docs' : list str)
    (metas : list M) :
  RagPipelineService.is_conversational (Py.lower query) = false →
  RagPipelineService.is_translation (Py.lower query) = false →
  RagPipelineService.query_documents query (doc0 :: docs') metas
  = mk_result ["doc_0"%string] [0%Q] (take 1 metas) [doc0].
Proof.
  intros Hconv Htr. unfold RagPipelineService.query_documents.
  rewrite Hconv, Htr. by destruct metas.
Qed.

(** C2 (as amended).  For a user with documents and a non-negative [top_k],
    [SimpleRAG.query] scores every chunk of the user with
    [simple_similarity], in floats, and returns exactly min(top_k, count)
    entries: the highest-ranked chunks, in the order of descending score
    with ties broken by descending chunk index, each with its id, score,
    document and metadata.  [query_documents] of the command-line pipeline
    neither scores nor sorts: a query that is no greeting and no translation
    request gets the first stored document alone, with distance 0. *)
Theorem query_ranking (s : SimpleRAG) (q : str) (u : string) (k : Z) :
  (rag_inv s → docs_of s u ≠ [] → (0 ≤ k)%Z →
   ∃ r top,
     query s q u k = Ok r
     ∧ ids r = Py.doc_id <$> top.*2
     ∧ distances r = top.*1
     ∧ length top = Nat.min (Z.to_nat k) (get_user_document_count s u)
     ∧ (∀ n x, top !! n = Some x →
          ∃ doc, docs_of s u !! x.2 = Some doc
                 ∧ x.1 = simple_similarity_float q doc
                 ∧ documents r !! n = Some doc
                 ∧ metadatas r !! n = user_metas s u !! x.2)
     ∧ ranked gt top
     ∧ (∀ j doc, docs_of s u !! j = Some doc →
          (simple_similarity_float q doc, j) ∈ top
          ∨ ∀ x, x ∈ top → outranks gt x (simple_similarity_float q doc, j)))
  ∧ (∀ (M : Type) (stored : list str) (metas : list M) doc0,
       head stored = Some doc0 →
       RagPipelineService.is_conversational (Py.lower q) = false →
       RagPipelineService.is_translation (Py.lower q) = false →
       RagPipelineService.query_documents q stored metas
       = mk_result ["doc_0"%string] [0%Q] (take 1 metas) [doc0]).
Proof.
  split; [|intros M [|d0 ds] metas doc0 [= <-]; apply query_documents_other].
  intros (Hwf & Hal & _) Hne Hk.
  unfold docs_of, get_user_document_count, user_metas in *.
  destruct (user_documents s !! u) as [docs|] eqn:Hdocs; [|done].
  cbn [default from_option id] in *.
  destruct (Hal u docs Hdocs) as (ms & Hms & Hlen).
  set (sorted := sort_reverse (similarities q docs)).
  set (top := top_results q docs k).
  assert (Htake : top = take (Z.to_nat k) sorted) by by apply slice_to_nonneg.
  assert (Hranked : ranked gt (top ++ drop (Z.to_nat k) sorted)).
  { rewrite Htake, take_drop. apply ranked_sorted_similarities. }
  assert (Hin : ∀ x, x ∈ top →
            ∃ doc, docs !! x.2 = Some doc ∧ x.1 = simple_similarity_float q doc).
  { intros x Hx. rewrite Htake in Hx. apply subseteq_take in Hx.
    unfold sorted in Hx. rewrite elem_of_sort_reverse in Hx.
    by apply elem_of_similarities. }
  assert (Hrange : Forall (λ i, i < length docs) top.*2).
  { apply Forall_fmap, Forall_forall. intros x Hx.
    destruct (Hin x Hx) as (doc & Hdoc & _). simpl. by eapply lookup_lt_Some. }
  destruct (index_all_in_range docs top.*2 Hrange) as [rdocs Hrdocs].
  rewrite <- Hlen in Hrange.
  destruct (index_all_in_range ms top.*2 Hrange) as [locs Hlocs].
  exists (mk_result (Py.doc_id <$> top.*2) top.*1 ((λ l, heap s !!! l) <$> locs) rdocs),
         top.
  split; [|split; [done|split; [done|split; [|split; [|split]]]]].
  - unfold query. rewrite Hdocs, Hms. cbn [default from_option id].
    destruct docs as [|d0 ds]; [done|].
    change (top_results q (d0 :: ds) k) with top. by rewrite Hlocs, Hrdocs.
  - rewrite Htake, length_take. unfold sorted.
    rewrite sort_reverse_perm. unfold similarities. by rewrite length_imap.
  - intros n x Hx. destruct (Hin x) as (doc & Hdoc & Hsc).
    { by eapply list_elem_of_lookup_2. }
    exists doc. split; [done|]. split; [done|]. cbn [documents metadatas].
    assert (Hn : top.*2 !! n = Some x.2) by by rewrite list_lookup_fmap, Hx.
    apply index_all_Forall2 in Hrdocs, Hlocs. split.
    + destruct (Forall2_lookup_l _ _ _ _ _ Hrdocs Hn) as (doc' & Hdoc' & Heq).
      by rewrite Hdoc', <- Heq.
    + destruct (Forall2_lookup_l _ _ _ _ _ Hlocs Hn) as (l & Hl & Heq).
      rewrite Hms. cbn [default from_option id].
      by rewrite !list_lookup_fmap, Hl, Heq.
  - by eapply StronglySorted_app_1_l.
  - intros j doc Hdoc.
    assert (Hy : (simple_similarity_float q doc, j)
                 ∈ top ++ drop (Z.to_nat k) sorted).
    { rewrite Htake, take_drop. unfold sorted. rewrite elem_of_sort_reverse.
      apply elem_of_similarities. by exists doc. }
    apply elem_of_app in Hy as [Hy|Hy]; [by left|right].
    intros x Hx. by eapply (StronglySorted_app_1_elem_of _ _ _ _ _ Hranked).
Qed.

End per_user_query.

(** The query "a b c d e f g" on the chunks "abcd abcdef" and "q g": the two
    scores are 7/40 in exact arithmetic, and 0.17500000000000002 and 0.175
    as floats, so the first chunk is ranked first. *)
Lemma query_ranking_witness :
  let s := after_ingest
             (after_ingest SimpleRagService.init (Py.text_of "abcd abcdef") "a.txt" "t1")
             (Py.text_of "q g") "b.txt" "t1" in
  let q := Py.text_of "a b c d e f g" in
  (∃ r, SimpleRagService.query s q "t1" 2 = Ok r
        ∧ ids r = ["doc_0"; "doc_1"]%string
        ∧ distances r = [6305039478318695 # 36028797018963968;
                         3152519739159347 # 18014398509481984]%Q
        ∧ documents r = [Py.text_of "abcd abcdef"; Py.text_of "q g"])
  ∧ RagPipelineService.query_documents q (docs_of s "t1") ["m0"; "m1"]%string
    = mk_result ["doc_0"%string] [0%Q] ["m0"%string] [Py.text_of "abcd abcdef"].
Proof.
  intros s q.
  destruct (query_ranking s q "t1" 2) as [Hquery Hpipeline]. split.
  - destruct Hquery as (r & top & Hq & _).
    + do 2 apply after_ingest_inv. apply rag_inv_init.
    + discriminate.
    + lia.
    + exists r. split; [exact Hq|].
      vm_compute in Hq. injection Hq as <-. repeat split; reflexivity.
  - apply (Hpipeline string (docs_of s "t1") ["m0"; "m1"]%string
             (Py.text_of "abcd abcdef"));
      reflexivity.
Defined.

(** C2 as stated fails on the order of ties: two chunks with the same score
    come back with the larger chunk index first.  It also fails for
    [query_documents], which returns the first stored document although the
    second one scores higher. *)
Lemma query_ties_descending_index :
  let s := after_ingest
             (after_ingest SimpleRagService.init (Py.text_of "a") "a.txt" "t1")
             (Py.text_of "a") "a.txt" "t1" in
  let top := SimpleRagService.top_results (Py.text_of "a") (docs_of s "t1") 2 in
  let q := Py.text_of "explain chapter 2" in
  let stored := [Py.text_of "introduction"; Py.text_of "chapter 2 is about trees"] in
  (∃ r, SimpleRagService.query s (Py.text_of "a") "t1" 2 = Ok r
        ∧ ids r = ["doc_1"; "doc_0"]%string
        ∧ distances r = top.*1
        ∧ Forall (λ d, d == 1)%Q (distances r))
  ∧ top.*2 = [1; 0]
  ∧ ¬ ranked lt top
  ∧ ids (RagPipelineService.query_documents q stored ["m0"; "m1"]%string)
    = ["doc_0"%string]
  ∧ (SimpleRagService.simple_similarity_float q (Py.text_of "introduction")
     < SimpleRagService.simple_similarity_float q
         (Py.text_of "chapter 2 is about trees"))%Q.
Proof.
  intros s top q stored. split; [|split; [|split; [|split]]].
  - eexists. split; [vm_compute; reflexivity|].
    split; [reflexivity|]. split; [vm_compute; reflexivity|].
    repeat constructor.
  - vm_compute. reflexivity.
  - intros Hr. unfold ranked in Hr. vm_compute in Hr.
    apply StronglySorted_inv in Hr as [_ Hall].
    apply Forall_cons in Hall as [[Hlt | [_ Hlt]] _].
    + discriminate Hlt.
    + lia.
  - vm_compute. reflexivity.
  - vm_compute. reflexivity.
Qed.

(** ** Further observations on the modelled code *)

(** A negative [top_k] is not clamped: the slice [similarities[:top_k]] then
    drops entries from the end, so [top_k = -1] on two documents returns
    one. *)
Lemma query_negative_top_k :
  let s := after_ingest
             (after_ingest SimpleRagService.init (Py.text_of "hello world") "a.txt" "t1")
             (Py.text_of "foo bar") "b.txt" "t1" in
  ids <$> (match SimpleRagService.query s (Py.text_of "foo") "t1" (-1) with
           | Ok r => Some r
           | Raise _ => None
           end) = Some ["doc_1"%string].
Proof. vm_compute. reflexivity. Qed.

(** The greeting test is a substring test: "translate this" contains "hi"
    (inside "this") and has two tokens, so it is answered as a greeting and
    never reaches the translation filter. *)
Lemma greeting_is_substring_match :
  let q := Py.text_of "translate this" in
  RagPipelineService.is_conversational (Py.lower q) = true
  ∧ RagPipelineService.is_translation (Py.lower q) = true
  ∧ RagPipelineService.query_documents q [Py.text_of "hola"] ["m0"%string]
    = mk_result [] [] [] [].
Proof. vm_compute. done. Qed.

(** * Further properties of the services *)

(** ** The per-user store *)
Section per_user_store_more.
Import SimpleRagService.
Implicit Types (s : SimpleRAG) (u : string) (q : str) (k : Z).

Lemma aligned_lengths s u : aligned s → length (locs_of s u) = length (docs_of s u).
Proof.
  intros [Hal Hsame]. unfold locs_of, docs_of.
  destruct (user_documents s !! u) as [d|] eqn:Hd.
  - by destruct (Hal u d Hd) as (ms & -> & Hlen).
  - by rewrite (Hsame u Hd).
Qed.

(** [add_documents] on an aligned store, for any [metadatas] argument. *)
Lemma add_documents_aligned s (texts : list str) u (md : option (list nat)) :
  texts ≠ [] → aligned s →
  add_documents s texts u md =
    (Ok (Added (length texts) (get_user_document_count s u + length texts)),
     mk_rag (written_metadata s texts u md).1
            (<[u := docs_of s u ++ texts]> (user_documents s))
            (<[u := locs_of s u ++ (written_metadata s texts u md).2]>
               (user_metadatas s))).
Proof.
  intros Hne [Hal Hsame].
  unfold add_documents, written_metadata, docs_of, locs_of, get_user_document_count.
  destruct texts as [|t0 texts]; [done|].
  destruct md as [ms|]; cbn [fst snd];
    (destruct (user_documents s !! u) as [d|] eqn:Hd;
     [ destruct (Hal u d Hd) as (ms' & Hms & _);
       rewrite Hd, Hms; cbn [default from_option id]; rewrite lookup_insert_eq;
       cbn [default from_option id]; by rewrite length_app
     | rewrite (Hsame u Hd); rewrite !lookup_insert_eq;
       cbn [default from_option id]; by rewrite !insert_insert_eq ]).
Qed.

Lemma lookup_foldl_alter {B} (f : B → B) (h : list B) (ms : list nat) (l : nat) :
  (∀ x, f (f x) = f x) →
  foldl (λ h l, alter f l h) h ms !! l
  = (if decide (l ∈ ms) then f else id) <$> h !! l.
Proof.
  intros Hf. revert h. induction ms as [|l0 ms IH]; intros h; cbn [foldl].
  - rewrite decide_False by apply not_elem_of_nil. by rewrite option_fmap_id.
  - rewrite IH. destruct (decide (l = l0)) as [->|Hne].
    + rewrite list_lookup_alter_eq,
        (decide_True (P := l0 ∈ l0 :: ms)) by apply list_elem_of_here.
      destruct (h !! l0) as [x|]; [|done]. simpl. by case_decide; rewrite ?Hf.
    + rewrite list_lookup_alter_ne by done.
      destruct (decide (l ∈ ms)) as [Hin|Hnotin].
      * by rewrite decide_True by (by apply list_elem_of_further).
      * by rewrite decide_False by (by apply not_elem_of_cons).
Qed.

Lemma fmap_lookup_total_fresh (h new : list Meta) :
  (λ l, (h ++ new) !!! l) <$> seq (length h) (length new) = new.
Proof.
  apply list_eq. intros i. rewrite list_lookup_fmap.
  destruct (decide (i < length new)) as [Hlt|Hge].
  - rewrite lookup_seq_lt by done. simpl.
    rewrite lookup_total_app_r by lia.
    replace (length h + i - length h) with i by lia.
    destruct (lookup_lt_is_Some_2 new i Hlt) as [x Hx].
    by rewrite (list_lookup_total_correct _ _ _ Hx).
  - rewrite lookup_seq_ge by lia. simpl. symmetry. apply lookup_ge_None. lia.
Qed.

Lemma fmap_lookup_total_old s u (extra : list Meta) :
  wf s →
  (λ l, (heap s ++ extra) !!! l) <$> locs_of s u = user_metas s u.
Proof.
  intros Hwf. unfold user_metas, locs_of. apply list_fmap_ext.
  intros _ l Hl%list_elem_of_lookup_2. apply lookup_total_app_l.
  destruct (user_metadatas s !! u) as [ms|] eqn:Hms; simpl in Hl.
  - by eapply Hwf.
  - by apply elem_of_nil in Hl.
Qed.

Lemma query_cleared s u q k :
  query (clear_user_documents s u) q u k = Ok (mk_result [] [] [] []).
Proof. unfold query, clear_user_documents. cbn. by rewrite !lookup_delete_eq. Qed.

(** X1.  After [clear_user_documents] a user has no documents and no
    metadata, every query of the user returns the four empty arrays, and a
    second clear changes nothing. *)
Theorem clear_user_then_empty s u q k :
  let s' := clear_user_documents s u in
  get_user_document_count s' u = 0
  ∧ user_metas s' u = []
  ∧ query s' q u k = Ok (mk_result [] [] [] [])
  ∧ clear_user_documents s' u = s'.
Proof.
  intros s'. split; [|split; [|split]].
  - unfold get_user_document_count, s', clear_user_documents. cbn.
    by rewrite lookup_delete_eq.
  - unfold user_metas, s', clear_user_documents. cbn. by rewrite lookup_delete_eq.
  - apply query_cleared.
  - unfold s', clear_user_documents. cbn. f_equal; apply delete_id, lookup_delete_eq.
Qed.

(** The shape of every query answer on a reachable store. *)
Lemma query_shape s q u k :
  rag_inv s →
  ∃ top locs rdocs,
    query s q u k =
      Ok (mk_result (Py.doc_id <$> top.*2) top.*1 ((λ l, heap s !!! l) <$> locs) rdocs)
    ∧ top = Py.slice_to (sort_reverse (similarities q (docs_of s u))) k
    ∧ length locs = length top ∧ length rdocs = length top.
Proof.
  intros (Hwf & Hal). pose proof (aligned_lengths s u Hal) as Hlen.
  unfold docs_of, locs_of in *. unfold query.
  destruct (default [] (user_documents s !! u)) as [|d0 ds] eqn:Hdocs.
  { exists [], [], []. split; [done|]. split; [|done].
    change (sort_reverse (similarities q [])) with (@nil (Q * nat)).
    by rewrite slice_to_nil. }
  set (top := top_results q (d0 :: ds) k).
  assert (Hrange : Forall (λ i, i < length (d0 :: ds)) top.*2).
  { apply Forall_fmap, Forall_forall. intros x Hx.
    apply slice_to_subseteq in Hx. rewrite elem_of_sort_reverse in Hx.
    apply elem_of_similarities in Hx as (doc & Hdoc & _).
    apply lookup_lt_Some in Hdoc. simpl in *. lia. }
  destruct (index_all_in_range (d0 :: ds) top.*2 Hrange) as [rdocs Hrdocs].
  rewrite <- Hlen in Hrange.
  destruct (index_all_in_range _ top.*2 Hrange) as [locs Hlocs].
  exists top, locs, rdocs. rewrite Hlocs, Hrdocs.
  apply index_all_Forall2, Forall2_length in Hlocs, Hrdocs.
  rewrite length_fmap in Hlocs, Hrdocs. done.
Qed.

Global Instance doc_id_inj : Inj (=) (=) Py.doc_id.
Proof.
  intros i j Heq. unfold Py.doc_id in Heq. simpl in Heq.
  injection Heq as Heq. by apply (inj pretty).
Qed.

Lemma slice_to_sublist {A} (l : list A) k : Py.slice_to l k `sublist_of` l.
Proof. unfold Py.slice_to. case_decide; apply sublist_take. Qed.

(** X2.  On a reachable store a query never raises, for any [top_k], also a
    negative one: it returns four arrays of one length, at most the user's
    document count, and its ids are pairwise distinct ids [doc_i] of stored
    chunks. *)
Theorem query_returns_aligned_arrays s q u k :
  rag_inv s →
  ∃ r, query s q u k = Ok r
       ∧ length (distances r) = length (ids r)
       ∧ length (metadatas r) = length (ids r)
       ∧ length (documents r) = length (ids r)
       ∧ length (ids r) ≤ get_user_document_count s u
       ∧ NoDup (ids r)
       ∧ ∀ id, id ∈ ids r →
           ∃ i, id = Py.doc_id i ∧ i < get_user_document_count s u.
Proof.
  intros Hinv.
  destruct (query_shape s q u k Hinv) as (top & locs & rdocs & Hq & Htop & Hl & Hr).
  eexists. split; [exact Hq|]. cbn [ids distances metadatas documents].
  rewrite !length_fmap.
  set (l := (sort_reverse (similarities q (docs_of s u))).*2).
  assert (Hsub : top.*2 `sublist_of` l).
  { rewrite Htop. apply fmap_sublist, slice_to_sublist. }
  assert (Hperm : l ≡ₚ seq 0 (length (docs_of s u))).
  { unfold l. by rewrite sort_reverse_perm, similarities_indices. }
  split; [done|]. split; [done|]. split; [done|].
  unfold get_user_document_count. fold (docs_of s u).
  split; [|split].
  - apply sublist_length in Hsub. rewrite length_fmap in Hsub.
    by rewrite Hperm, length_seq in Hsub.
  - apply NoDup_fmap_2; [apply _|].
    apply (sublist_NoDup _ l); [|done]. rewrite Hperm. apply NoDup_seq.
  - intros id (i & -> & Hi)%list_elem_of_fmap. exists i. split; [done|].
    eapply sublist_subseteq in Hi; [|exact Hsub]. rewrite Hperm in Hi.
    apply elem_of_seq in Hi. lia.
Qed.

End per_user_store_more.

Lemma query_returns_aligned_arrays_witness :
  let s := after_ingest
             (after_ingest SimpleRagService.init (Py.text_of "hello world") "a.txt" "t1")
             (Py.text_of "foo bar") "b.txt" "t1" in
  ∃ r, SimpleRagService.query s (Py.text_of "foo") "t1" (-1) = Ok r
       ∧ length (documents r) = length (ids r) ∧ NoDup (ids r).
Proof.
  intros s.
  destruct (query_returns_aligned_arrays s (Py.text_of "foo") "t1" (-1))
    as (r & Hq & _ & _ & Hd & _ & Hnd & _).
  - do 2 apply after_ingest_inv. apply rag_inv_init.
  - exists r. split; [exact Hq|]. split; [exact Hd|exact Hnd].
Defined.

Section per_user_store_writes.
Import SimpleRagService.
Implicit Types (s : SimpleRAG) (u : string) (q : str) (k : Z).

Lemma index_all_permutation {A} `{!Inhabited A} (xs : list A) (idxs : list nat)
    (r : list A) :
  index_all xs idxs = Ok r → idxs ≡ₚ seq 0 (length xs) → r ≡ₚ xs.
Proof.
  intros Hix%index_all_Forall2 Hperm.
  assert (Hr : r = (λ i, xs !!! i) <$> idxs).
  { clear Hperm. induction Hix as [|i x idxs' r' Hx _ IH]; [done|].
    rewrite fmap_cons, <- IH. by rewrite (list_lookup_total_correct _ _ _ Hx). }
  rewrite Hr, Hperm. clear. induction xs as [|x xs IH] using rev_ind; [done|].
  rewrite length_app. simpl. rewrite Nat.add_1_r, seq_S, fmap_app. simpl.
  rewrite lookup_total_app_r by lia. rewrite Nat.sub_diag. simpl.
  apply Permutation_app; [|done].
  rewrite (list_fmap_ext _ (λ i, xs !!! i) (seq 0 (length xs))); [exact IH|].
  intros _ i Hi%list_elem_of_lookup_2.
  apply elem_of_seq in Hi. apply lookup_total_app_l. lia.
Qed.

(** X3.  With [top_k] at least the user's document count, the answer lists
    every chunk of the user exactly once. *)
Theorem query_large_top_k_returns_all s q u k :
  rag_inv s → (Z.of_nat (get_user_document_count s u) ≤ k)%Z →
  ∃ r, query s q u k = Ok r
       ∧ ids r ≡ₚ Py.doc_id <$> seq 0 (get_user_document_count s u)
       ∧ documents r ≡ₚ docs_of s u.
Proof.
  intros Hinv Hk.
  unfold get_user_document_count in *. fold (docs_of s u) in *.
  set (sorted := sort_reverse (similarities q (docs_of s u))).
  assert (Htop : top_results q (docs_of s u) k = sorted).
  { unfold top_results. rewrite slice_to_nonneg by lia. apply take_ge.
    unfold sorted. rewrite sort_reverse_perm. unfold similarities.
    rewrite length_imap. lia. }
  assert (Hidx : sorted.*2 ≡ₚ seq 0 (length (docs_of s u))).
  { unfold sorted. by rewrite sort_reverse_perm, similarities_indices. }
  destruct Hinv as (Hwf & Hal). pose proof (aligned_lengths s u Hal) as Hlen.
  unfold query. fold (docs_of s u) (locs_of s u).
  destruct (docs_of s u) as [|d0 ds] eqn:Hdocs.
  { eexists. split; [done|]. done. }
  rewrite Htop.
  assert (Hrange : Forall (λ i, i < length (d0 :: ds)) sorted.*2).
  { apply Forall_forall. intros i Hi. rewrite Hidx in Hi.
    apply elem_of_seq in Hi. lia. }
  destruct (index_all_in_range (d0 :: ds) _ Hrange) as [rdocs Hrdocs].
  rewrite <- Hlen in Hrange.
  destruct (index_all_in_range (locs_of s u) _ Hrange) as [locs Hlocs].
  rewrite Hlocs, Hrdocs. eexists. split; [done|]. cbn [ids documents].
  split; [by rewrite Hidx|].
  eapply index_all_permutation; [exact Hrdocs|exact Hidx].
Qed.

(** X4.  [add_documents] without metadata, for a non-empty list of texts on
    a reachable store: the texts are appended to the user's documents, the
    count grows by their number, the i-th text gets the metadata
    {text, source: "doc_i", user_id}, and the store stays reachable. *)
Theorem add_documents_default_metadata s (texts : list str) u :
  rag_inv s → texts ≠ [] →
  ∃ s',
    add_documents s texts u None =
      (Ok (Added (length texts) (get_user_document_count s u + length texts)), s')
    ∧ rag_inv s'
    ∧ docs_of s' u = docs_of s u ++ texts
    ∧ user_metas s' u
      = user_metas s u ++ imap (λ i t, mk_meta t (Py.doc_id i) u) texts.
Proof.
  intros (Hwf & Hal) Hne. eexists. split; [by apply add_documents_aligned|].
  pose proof (aligned_lengths s u Hal) as Hlen.
  cbn [written_metadata fst snd]. split; [split; [|split]|split].
  - intros u' ms l. cbn. rewrite length_app, length_imap.
    destruct (decide (u = u')) as [<-|Hneq].
    + rewrite lookup_insert_eq. intros [= <-]. rewrite elem_of_app, elem_of_seq.
      intros [Hl|Hl]; [|lia]. unfold locs_of in Hl.
      destruct (user_metadatas s !! u) as [ms|] eqn:Hms; simpl in Hl.
      * specialize (Hwf u ms l Hms Hl). lia.
      * by apply elem_of_nil in Hl.
    + rewrite lookup_insert_ne by done. intros Hms Hl.
      specialize (Hwf u' ms l Hms Hl). lia.
  - intros u' docs. cbn. destruct (decide (u = u')) as [<-|Hneq].
    + rewrite !lookup_insert_eq. intros [= <-]. eexists; split; [done|].
      rewrite !length_app, length_seq. lia.
    + rewrite !lookup_insert_ne by done. apply Hal.
  - intros u'. cbn. destruct (decide (u = u')) as [<-|Hneq].
    + by rewrite lookup_insert_eq.
    + rewrite !lookup_insert_ne by done. apply Hal.
  - unfold docs_of at 1. cbn. by rewrite lookup_insert_eq.
  - unfold user_metas at 1. cbn. rewrite lookup_insert_eq. cbn.
    rewrite fmap_app, fmap_lookup_total_old by done. f_equal.
    rewrite <- (length_imap (λ i t, mk_meta t (Py.doc_id i) u) texts).
    apply fmap_lookup_total_fresh.
Qed.

(** X5.  [add_documents] with caller-built metadata writes the user id into
    every dictionary handed in, and into nothing else: the other fields and
    the other dictionaries of the heap are left as they were. *)
Theorem add_documents_writes_user_id s (texts : list str) u (ms : list nat) :
  texts ≠ [] →
  let s' := (add_documents s texts u (Some ms)).2 in
  length (heap s') = length (heap s)
  ∧ ∀ l, heap s' !! l
         = (if decide (l ∈ ms) then set_user_id u else id) <$> heap s !! l.
Proof.
  intros Hne s'.
  assert (Hheap : heap s' = foldl (λ h l, alter (set_user_id u) l h) (heap s) ms).
  { unfold s', add_documents. destruct texts as [|t0 ts]; [done|].
    destruct (user_documents s !! u) as [d|].
    - by destruct (user_metadatas s !! u).
    - cbv zeta. cbn match. by rewrite lookup_insert_eq. }
  rewrite Hheap. split.
  - generalize (heap s). clear. induction ms as [|l ms IH]; intros h; [done|].
    cbn [foldl]. by rewrite IH, length_alter.
  - intros l. by apply lookup_foldl_alter.
Qed.

Lemma index_all_out_of_range {A} (xs : list A) (idxs : list nat) (i : nat) :
  i ∈ idxs → length xs ≤ i → index_all xs idxs = Raise "IndexError".
Proof.
  intros Hi Hlen. induction idxs as [|j idxs IH]; [by apply elem_of_nil in Hi|].
  simpl. destruct (xs !! j) as [x|] eqn:Hx; [|done].
  apply elem_of_cons in Hi as [->|Hi].
  - apply lookup_lt_Some in Hx. lia.
  - by rewrite IH.
Qed.

(** X6.  [add_documents] does not compare the lengths of its two lists:
    with fewer metadata than texts the user's lists fall out of step, and a
    query asking for at least all of the user's chunks then raises
    [IndexError]. *)
Theorem add_documents_short_metadata_breaks_query s (texts : list str) u
    (ms : list nat) q k :
  aligned s → length ms < length texts →
  let s' := (add_documents s texts u (Some ms)).2 in
  (Z.of_nat (get_user_document_count s' u) ≤ k)%Z →
  get_user_document_count s' u = get_user_document_count s u + length texts
  ∧ length (locs_of s' u) < get_user_document_count s' u
  ∧ query s' q u k = Raise "IndexError".
Proof.
  intros Hal Hshort s'. assert (Hne : texts ≠ []) by (intros ->; simpl in *; lia).
  pose proof (aligned_lengths s u Hal) as Hlen.
  unfold s'. rewrite add_documents_aligned by done. cbn [snd written_metadata].
  unfold get_user_document_count, locs_of. cbn [user_documents user_metadatas].
  rewrite !lookup_insert_eq. cbn [default from_option id].
  rewrite !length_app. fold (docs_of s u) (locs_of s u).
  intros Hk. split; [done|]. split; [lia|].
  unfold query. cbn [user_documents user_metadatas].
  rewrite !lookup_insert_eq. cbn [default from_option id].
  set (docs := docs_of s u ++ texts).
  assert (Hdlen : length docs = length (docs_of s u) + length texts)
    by apply length_app.
  destruct docs as [|d0 ds] eqn:Hdocs.
  { destruct texts; simpl in *; [done|lia]. }
  rewrite <- Hdocs in *.
  assert (Htop : top_results q docs k = sort_reverse (similarities q docs)).
  { unfold top_results. rewrite slice_to_nonneg by lia. apply take_ge.
    rewrite sort_reverse_perm. unfold similarities. rewrite length_imap. lia. }
  rewrite Htop.
  rewrite (index_all_out_of_range _ _ (length docs - 1)); [done| |].
  - rewrite sort_reverse_perm, similarities_indices. apply elem_of_seq. lia.
  - rewrite length_app. lia.
Qed.

(** X7.  The count reported by [/health] and [/stats] is the number of
    users with documents: an ingest of a readable file adds one for a new
    user and nothing for a known one, however many chunks it stores. *)
Theorem documents_count_counts_users (read : string → str) s
    (path : string) (source user_id : option string) :
  aligned s → read path ≠ [] →
  let u := Py.or_else user_id "default" in
  let s' := (ingest_file read s path source user_id).2 in
  documents_count s'
  = match user_documents s !! u with
    | Some _ => documents_count s
    | None => S (documents_count s)
    end.
Proof.
  intros Hal Hne u s'. unfold s'. rewrite ingest_file_nonempty by done.
  fold u. unfold documents_count, after_ingest. cbn [snd user_documents].
  destruct (user_documents s !! u) as [d|] eqn:Hd.
  - apply map_size_insert_Some. by rewrite Hd.
  - by apply map_size_insert_None.
Qed.

(** X8.  All chunks stored by one [ingest_file] carry the same metadata:
    the whole text of the file, the source (or the path when no source is
    given) and the user id (or "default"). *)
Theorem ingest_file_shares_metadata (read : string → str) s
    (path : string) (source user_id : option string) :
  rag_inv s → read path ≠ [] →
  let u := Py.or_else user_id "default" in
  let s' := (ingest_file read s path source user_id).2 in
  user_metas s' u
  = user_metas s u
    ++ replicate (ceil_div (length (read path)) 1000)
         (mk_meta (read path) (Py.or_else source path) u).
Proof.
  intros (Hwf & Hal) Hne u s'. unfold s'. rewrite ingest_file_nonempty by done.
  fold u. cbn [snd]. unfold user_metas at 1, after_ingest.
  cbn [heap user_metadatas]. rewrite lookup_insert_eq. cbn [default from_option id].
  rewrite fmap_app, fmap_lookup_total_old by done. f_equal.
  rewrite <- list_fmap_compose.
  change 1000 with CHUNK_SIZE. rewrite <- length_chunk_text.
  apply const_fmap. intros c. cbn.
  rewrite lookup_total_app_r by lia. by rewrite Nat.sub_diag.
Qed.

End per_user_store_writes.

Lemma query_large_top_k_returns_all_witness :
  let s := after_ingest
             (after_ingest SimpleRagService.init (Py.text_of "hello world") "a.txt" "t1")
             (Py.text_of "foo bar") "b.txt" "t1" in
  ∃ r, SimpleRagService.query s (Py.text_of "foo") "t1" 5 = Ok r
       ∧ ids r ≡ₚ ["doc_0"; "doc_1"]%string.
Proof.
  intros s.
  destruct (query_large_top_k_returns_all s (Py.text_of "foo") "t1" 5)
    as (r & Hq & Hids & _).
  - do 2 apply after_ingest_inv. apply rag_inv_init.
  - vm_compute. intros H; discriminate H.
  - exists r. split; [exact Hq|exact Hids].
Defined.

Lemma add_documents_default_metadata_witness :
  let s := after_ingest SimpleRagService.init (Py.text_of "hello world") "a.txt" "t1" in
  ∃ s', SimpleRagService.add_documents s [Py.text_of "x"; Py.text_of "y"] "t1" None
        = (Ok (SimpleRagService.Added 2 3), s')
        ∧ docs_of s' "t1" = docs_of s "t1" ++ [Py.text_of "x"; Py.text_of "y"].
Proof.
  intros s.
  destruct (add_documents_default_metadata s [Py.text_of "x"; Py.text_of "y"] "t1")
    as (s' & Hadd & _ & Hdocs & _).
  - apply after_ingest_inv, rag_inv_init.
  - discriminate.
  - exists s'. split; [exact Hadd|exact Hdocs].
Defined.

Lemma add_documents_writes_user_id_witness :
  let s := (SimpleRagService.add_documents SimpleRagService.init
              [Py.text_of "x"] "ann" None).2 in
  let s' := (SimpleRagService.add_documents s [Py.text_of "y"] "bob" (Some [0])).2 in
  SimpleRagService.heap s' !! 0
  = SimpleRagService.set_user_id "bob" <$> SimpleRagService.heap s !! 0.
Proof.
  intros s s'.
  apply (proj2 (add_documents_writes_user_id s [Py.text_of "y"] "bob" [0]
                  ltac:(discriminate)) 0).
Defined.

Lemma add_documents_short_metadata_breaks_query_witness :
  let s' := (SimpleRagService.add_documents SimpleRagService.init
               [Py.text_of "a"; Py.text_of "b"] "u" (Some [])).2 in
  SimpleRagService.query s' (Py.text_of "a") "u" 2 = Raise "IndexError".
Proof.
  intros s'.
  destruct (add_documents_short_metadata_breaks_query SimpleRagService.init
              [Py.text_of "a"; Py.text_of "b"] "u" [] (Py.text_of "a") 2)
    as (_ & _ & Hq).
  - apply rag_inv_init.
  - simpl. lia.
  - vm_compute. intros H; discriminate H.
  - exact Hq.
Defined.

Lemma documents_count_counts_users_witness :
  let read := λ _ : string, replicate 2500 "a"%char in
  let s := after_ingest SimpleRagService.init (Py.text_of "hello world") "a.txt" "t1" in
  SimpleRagService.documents_count
    (SimpleRagService.ingest_file read s "c.txt" None (Some "t9"%string)).2
  = S (SimpleRagService.documents_count s)
  ∧ SimpleRagService.documents_count
      (SimpleRagService.ingest_file read s "c.txt" None (Some "t1"%string)).2
    = SimpleRagService.documents_count s.
Proof.
  intros read s.
  assert (Hal : aligned s) by apply after_ingest_inv, rag_inv_init.
  split.
  - exact (documents_count_counts_users read s "c.txt" None (Some "t9"%string)
             Hal ltac:(discriminate)).
  - exact (documents_count_counts_users read s "c.txt" None (Some "t1"%string)
             Hal ltac:(discriminate)).
Defined.

Lemma ingest_file_shares_metadata_witness :
  let read := λ _ : string, replicate 2500 "a"%char in
  let s := after_ingest SimpleRagService.init (Py.text_of "hello world") "a.txt" "t1" in
  let s' := (SimpleRagService.ingest_file read s "c.txt" None (Some "t1"%string)).2 in
  SimpleRagService.user_metas s' "t1"
  = SimpleRagService.user_metas s "t1"
    ++ replicate 3 (SimpleRagService.mk_meta (replicate 2500 "a"%char) "c.txt" "t1").
Proof.
  intros read s s'.
  apply (ingest_file_shares_metadata read s "c.txt" None (Some "t1"%string)).
  - apply after_ingest_inv, rag_inv_init.
  - discriminate.
Defined.

(** ** The global store of the simple working service *)
Section working_store.
Import SimpleWorkingRag.
Implicit Types (st : Store) (req : QueryRequest).

Lemma Qnat_le (a b : nat) : a ≤ b → (Qnat a <= Qnat b)%Q.
Proof. intros Hle. unfold Qnat. rewrite <- Zle_Qle. lia. Qed.

Lemma Qnat_lt (a b : nat) : a < b → (Qnat a < Qnat b)%Q.
Proof. intros Hlt. unfold Qnat. rewrite <- Zlt_Qlt. lia. Qed.

Lemma true_div_le_1 (a b : nat) : a ≤ b → 0 < b → (true_div a b <= 1)%Q.
Proof.
  intros Hle Hb. unfold true_div. apply Qle_shift_div_r.
  - by apply (Qnat_lt 0).
  - rewrite Qmult_1_l. by apply Qnat_le.
Qed.

Lemma true_div_pos (a b : nat) : 0 < a → 0 < b → (0 < true_div a b)%Q.
Proof.
  intros Ha Hb. unfold true_div. apply Qlt_shift_div_l.
  - by apply (Qnat_lt 0).
  - rewrite Qmult_0_l. by apply (Qnat_lt 0).
Qed.

Lemma true_div_eq_1 (a b : nat) : 0 < b → (true_div a b == 1)%Q ↔ a = b.
Proof.
  intros Hb. pose proof (Qnat_lt 0 b Hb) as Hpos.
  change (Qnat 0) with 0%Q in Hpos. unfold true_div. split.
  - intros Heq.
    assert (Hab : (Qnat a == Qnat b)%Q).
    { rewrite <- (Qmult_1_l (Qnat b)), <- Heq. field. lra. }
    unfold Qnat in Hab. apply (proj1 (inject_Z_injective _ _)) in Hab. lia.
  - intros ->. field. lra.
Qed.

Lemma positive_spec (x : Q) : positive x = true ↔ (0 < x)%Q.
Proof.
  unfold positive. rewrite Qlt_alt. by destruct (0 ?= x)%Q.
Qed.

Lemma keyword_score_le_1 (query_lower doc : str) :
  (keyword_score query_lower doc <= 1)%Q.
Proof.
  unfold keyword_score. apply true_div_le_1; [|lia].
  etrans; [apply subseteq_size, intersection_subseteq_l|]. lia.
Qed.

Lemma scored_from_indices (i0 : nat) (query_lower : str) (docs : list str) :
  (scored_from i0 query_lower docs).*2 `sublist_of` seq i0 (length docs).
Proof.
  revert i0. induction docs as [|doc docs IH]; intros i0; simpl; [done|].
  rewrite fmap_app. destruct (positive _); simpl.
  - apply sublist_skip, IH.
  - apply sublist_cons, IH.
Qed.

Lemma slice_to_take {A} (l : list A) (k : Z) : ∃ n, Py.slice_to l k = take n l.
Proof. unfold Py.slice_to. case_decide; eauto. Qed.

Lemma StronglySorted_slice_to {A} (R : relation A) (l : list A) (k : Z) :
  StronglySorted R l → StronglySorted R (Py.slice_to l k).
Proof.
  intros Hl. destruct (slice_to_take l k) as [n ->].
  rewrite <- (take_drop n l) in Hl. by eapply StronglySorted_app_1_l.
Qed.

Lemma working_query_shape st req :
  working_aligned st →
  ∃ metas docs,
    query st req =
      Ok (mk_result (Py.doc_id <$> (top_results st req).*2)
                    (top_results st req).*1 metas docs)
    ∧ length metas = length (top_results st req)
    ∧ length docs = length (top_results st req).
Proof.
  unfold working_aligned. intros Hal. unfold query.
  destruct (st_documents st) as [|d0 ds] eqn:Hdocs.
  { exists [], []. unfold top_results. rewrite Hdocs. cbn [scored_from].
    change (sort_reverse []) with (@nil (Q * nat)). by rewrite slice_to_nil. }
  rewrite <- Hdocs in Hal |- *.
  assert (Hrange : Forall (λ i, i < length (st_documents st)) (top_results st req).*2).
  { apply Forall_fmap, Forall_forall. intros x Hx. unfold top_results in Hx.
    apply slice_to_subseteq in Hx. rewrite elem_of_sort_reverse in Hx.
    apply elem_of_scored_from in Hx as (doc & _ & Hdoc & _).
    apply lookup_lt_Some in Hdoc. simpl. lia. }
  destruct (index_all_in_range _ _ Hrange) as [docs Hd].
  rewrite <- Hal in Hrange.
  destruct (index_all_in_range _ _ Hrange) as [metas Hm].
  exists metas, docs. rewrite Hm, Hd.
  apply index_all_Forall2, Forall2_length in Hm, Hd.
  rewrite length_fmap in Hm, Hd. done.
Qed.

(** X9.  An ingest of a readable file into an aligned store appends the
    chunks and one shared metadata record per chunk, returns the contiguous
    ids [doc_c .. doc_(c+n-1)] that follow the [c] documents held before, and
    keeps the store aligned. *)
Theorem working_ingest_appends (read : string → str) st (req : IngestRequest) :
  working_aligned st → file_path req ≠ "" → read (file_path req) ≠ [] →
  let n := ceil_div (length (read (file_path req))) 1000 in
  let meta := mk_meta (Py.or_else (source req) (file_path req))
                      (Py.or_else (ingest_user_id req) "default") in
  ∃ st',
    ingest read st req
      = (Ok (mk_ingest n (Py.doc_id <$> seq (documents_count st) n) None), st')
    ∧ working_aligned st'
    ∧ documents_count st' = documents_count st + n
    ∧ st_metadatas st' = st_metadatas st ++ replicate n meta.
Proof.
  intros Hal Hpath Hne n meta. unfold working_aligned, documents_count in *.
  assert (Hlen : length (chunk_text (read (file_path req))) = n)
    by apply length_chunk_text.
  unfold ingest. rewrite decide_False by done.
  destruct (read (file_path req)) as [|c t] eqn:Hread; [done|].
  eexists. split; [|split; [|split]].
  - rewrite length_app, Hlen.
    by replace (length (st_documents st) + n - length (st_documents st)) with n by lia.
  - cbn [st_documents st_metadatas]. rewrite !length_app, length_fmap. lia.
  - cbn [st_documents]. by rewrite length_app, Hlen.
  - cbn [st_metadatas]. f_equal. rewrite <- Hlen. by apply const_fmap.
Qed.

(** X10.  On an aligned store the keyword query never raises, for any
    [top_k]: its four arrays have one length, at most the number of stored
    documents and at most a non-negative [top_k]; the distances lie in
    (0, 1] and come in descending order; the ids are pairwise distinct. *)
Theorem working_query_answer st req :
  working_aligned st →
  ∃ r, query st req = Ok r
       ∧ length (distances r) = length (ids r)
       ∧ length (metadatas r) = length (ids r)
       ∧ length (documents r) = length (ids r)
       ∧ length (ids r) ≤ documents_count st
       ∧ ((0 ≤ top_k req)%Z → length (ids r) ≤ Z.to_nat (top_k req))
       ∧ Forall (λ d, 0 < d ∧ d <= 1)%Q (distances r)
       ∧ StronglySorted (λ d1 d2, d2 <= d1)%Q (distances r)
       ∧ NoDup (ids r).
Proof.
  intros Hal. destruct (working_query_shape st req Hal) as (metas & docs & Hq & Hm & Hd).
  eexists. split; [exact Hq|]. cbn [ids distances metadatas documents].
  rewrite !length_fmap.
  set (results := scored_from 0 (Py.lower (query_text req)) (st_documents st)).
  assert (Htop : top_results st req = Py.slice_to (sort_reverse results) (top_k req))
    by done.
  assert (Hidx : results.*2 `sublist_of` seq 0 (length (st_documents st)))
    by apply scored_from_indices.
  assert (Hnd : NoDup (sort_reverse results).*2).
  { rewrite sort_reverse_perm. apply (sublist_NoDup _ _ (NoDup_seq _ _) Hidx). }
  split; [done|]. split; [done|]. split; [done|].
  split; [|split; [|split; [|split]]].
  - rewrite Htop. etrans; [apply sublist_length, slice_to_sublist|].
    rewrite sort_reverse_perm, <- (length_fmap snd).
    apply sublist_length in Hidx. by rewrite length_seq in Hidx.
  - intros Hk. rewrite Htop, slice_to_nonneg by done. rewrite length_take. lia.
  - apply Forall_fmap, Forall_forall. intros x Hx. rewrite Htop in Hx.
    apply slice_to_subseteq in Hx. rewrite elem_of_sort_reverse in Hx.
    apply elem_of_scored_from in Hx as (doc & _ & _ & Hsc & Hpos). simpl.
    split; [by apply positive_spec|]. rewrite Hsc. apply keyword_score_le_1.
  - rewrite Htop. apply (StronglySorted_fmap fst (outranks gt)).
    + intros x y [Hlt|[Heq _]]; lra.
    + apply StronglySorted_slice_to.
      apply sorted_strict; [apply sort_reverse_sorted|done].
  - apply NoDup_fmap_2; [apply _|]. rewrite Htop.
    apply (sublist_NoDup _ _ Hnd). apply fmap_sublist, slice_to_sublist.
Qed.

(** X11.  A stored chunk gets the maximal distance 1 exactly when it
    contains every whitespace token of the (non-blank) lowercased query. *)
Theorem keyword_score_one (query_lower doc : str) :
  Py.split query_lower ≠ [] →
  (keyword_score query_lower doc == 1)%Q
  ↔ ∀ w, w ∈ Py.split query_lower → w ∈ Py.split (Py.lower doc).
Proof.
  intros Hne. unfold keyword_score.
  set (qw := list_to_set (Py.split query_lower) : gset str).
  set (dw := list_to_set (Py.split (Py.lower doc)) : gset str).
  assert (Hpos : 0 < size qw).
  { destruct (Py.split query_lower) as [|w ws] eqn:Hs; [done|].
    assert (Hw : w ∈ qw) by apply elem_of_list_to_set, list_elem_of_here.
    destruct (size qw) eqn:Hsize; [|lia].
    apply size_empty_inv in Hsize. rewrite Hsize in Hw.
    by apply not_elem_of_empty in Hw. }
  rewrite Nat.max_l by lia. rewrite true_div_eq_1 by done.
  assert (Hsub : (∀ w, w ∈ Py.split query_lower → w ∈ Py.split (Py.lower doc))
                 ↔ qw ⊆ dw).
  { unfold qw, dw. split.
    - intros H w. rewrite !elem_of_list_to_set. apply H.
    - intros H w Hw. specialize (H w). rewrite !elem_of_list_to_set in H.
      by apply H. }
  rewrite Hsub. split.
  - intros Hsize w Hw.
    assert (Heq : qw ∩ dw = qw).
    { apply set_subseteq_size_eq; [apply intersection_subseteq_l|lia]. }
    rewrite <- Heq in Hw. by apply elem_of_intersection in Hw as [_ Hw].
  - intros Hqd. f_equal. apply set_eq. intros w. rewrite elem_of_intersection.
    split; [by intros [Hw _]|]. intros Hw. split; [done|by apply Hqd].
Qed.

(** X12.  After [/clear] the store is empty and aligned, every query returns
    the four empty arrays, and the next ingest starts again at [doc_0]:
    the ids are positions in the store, not permanent names. *)
Theorem working_clear_restarts_ids (read : string → str) st
    (req : IngestRequest) (qreq : QueryRequest) :
  file_path req ≠ "" → read (file_path req) ≠ [] →
  let st0 := clear_index st in
  documents_count st0 = 0
  ∧ working_aligned st0
  ∧ query st0 qreq = Ok (mk_result [] [] [] [])
  ∧ ∃ n st', ingest read st0 req = (Ok (mk_ingest n (Py.doc_id <$> seq 0 n) None), st')
             ∧ 0 < n.
Proof.
  intros Hpath Hne st0. split; [done|]. split; [done|]. split; [done|].
  unfold ingest. rewrite decide_False by done.
  destruct (read (file_path req)) as [|c t] eqn:Hread; [done|].
  destruct (chunk_text_cons c t) as (c0 & cs & Hchunks).
  eexists _, _. split.
  - cbn [st_documents st0 clear_index length app]. rewrite Nat.sub_0_r. reflexivity.
  - rewrite Hchunks. simpl. lia.
Qed.

(** X13.  A query without any whitespace token (empty or blank) returns the
    four empty arrays on every store. *)
Theorem working_blank_query st req :
  Py.split (Py.lower (query_text req)) = [] →
  query st req = Ok (mk_result [] [] [] []).
Proof.
  intros Hblank. unfold query, top_results.
  destruct (st_documents st) as [|d0 ds]; [done|].
  rewrite scored_from_disjoint.
  - change (sort_reverse []) with (@nil (Q * nat)). by rewrite slice_to_nil.
  - intros doc _ w Hw. rewrite Hblank in Hw. by apply elem_of_nil in Hw.
Qed.

End working_store.

Lemma working_ingest_appends_witness :
  let read := λ _ : string, replicate 2500 "a"%char in
  let st := SimpleWorkingRag.mk_store [Py.text_of "old"] [SimpleWorkingRag.mk_meta "f" "u"] in
  ∃ st', SimpleWorkingRag.ingest read st
           (SimpleWorkingRag.mk_ingest_request "a.txt" None (Some "ann"%string))
         = (Ok (mk_ingest 3 ["doc_1"; "doc_2"; "doc_3"]%string None), st')
         ∧ SimpleWorkingRag.documents_count st' = 4.
Proof.
  intros read st.
  destruct (working_ingest_appends read st
              (SimpleWorkingRag.mk_ingest_request "a.txt" None (Some "ann"%string)))
    as (st' & Hing & _ & Hcount & _).
  - reflexivity.
  - discriminate.
  - discriminate.
  - exists st'. split; [exact Hing|exact Hcount].
Defined.

Lemma working_query_answer_witness :
  let st := SimpleWorkingRag.mk_store
              [Py.text_of "red apple"; Py.text_of "blue sky"]
              [SimpleWorkingRag.mk_meta "a" "u"; SimpleWorkingRag.mk_meta "b" "u"] in
  ∃ r, SimpleWorkingRag.query st
         (SimpleWorkingRag.mk_query_request (Py.text_of "Apple pie") (-3) None) = Ok r
       ∧ length (documents r) = length (ids r)
       ∧ NoDup (ids r).
Proof.
  intros st.
  destruct (working_query_answer st
              (SimpleWorkingRag.mk_query_request (Py.text_of "Apple pie") (-3) None))
    as (r & Hq & _ & _ & Hd & _ & _ & _ & _ & Hnd).
  - reflexivity.
  - exists r. split; [exact Hq|]. split; [exact Hd|exact Hnd].
Defined.

Lemma keyword_score_one_witness :
  (SimpleWorkingRag.keyword_score (Py.text_of "red apple") (Py.text_of "A Red APPLE pie")
   == 1)%Q.
Proof.
  apply (proj2 (keyword_score_one (Py.text_of "red apple")
                  (Py.text_of "A Red APPLE pie") ltac:(discriminate))).
  intros w Hw. vm_compute in Hw.
  apply elem_of_cons in Hw as [->|Hw];
    [|apply elem_of_cons in Hw as [->|Hw]; [|by apply elem_of_nil in Hw]];
    vm_compute; repeat constructor.
Defined.

Lemma working_clear_restarts_ids_witness :
  let read := λ _ : string, Py.text_of "new text" in
  let st := SimpleWorkingRag.mk_store [Py.text_of "old"] [SimpleWorkingRag.mk_meta "f" "u"] in
  ∃ n st', SimpleWorkingRag.ingest read (SimpleWorkingRag.clear_index st)
             (SimpleWorkingRag.mk_ingest_request "a.txt" None None)
           = (Ok (mk_ingest n (Py.doc_id <$> seq 0 n) None), st')
           ∧ 0 < n.
Proof.
  intros read st.
  apply (working_clear_restarts_ids read st
           (SimpleWorkingRag.mk_ingest_request "a.txt" None None)
           (SimpleWorkingRag.mk_query_request [] 5 None)).
  - discriminate.
  - discriminate.
Defined.

Lemma working_blank_query_witness :
  let st := SimpleWorkingRag.mk_store [Py.text_of "old"] [SimpleWorkingRag.mk_meta "f" "u"] in
  SimpleWorkingRag.query st
    (SimpleWorkingRag.mk_query_request (Py.text_of "   ") 5 None)
  = Ok (mk_result [] [] [] []).
Proof.
  intros st. apply working_blank_query. reflexivity.
Defined.

(** ** Case and blank queries *)
Section case_insensitive.

Lemma lower_char_idem (c : ascii) : Py.lower_char (Py.lower_char c) = Py.lower_char c.
Proof. destruct c as [[] [] [] [] [] [] [] []]; reflexivity. Qed.

Lemma lower_idem (s : str) : Py.lower (Py.lower s) = Py.lower s.
Proof.
  unfold Py.lower. rewrite <- list_fmap_compose. apply list_fmap_ext.
  intros _ c _. apply lower_char_idem.
Qed.

Lemma simple_similarity_lower (q c : str) :
  SimpleRagService.simple_similarity (Py.lower q) (Py.lower c)
  = SimpleRagService.simple_similarity q c.
Proof. unfold SimpleRagService.simple_similarity. by rewrite !lower_idem. Qed.

Lemma simple_similarity_lower_query (q c : str) :
  SimpleRagService.simple_similarity (Py.lower q) c
  = SimpleRagService.simple_similarity q c.
Proof. unfold SimpleRagService.simple_similarity. by rewrite !lower_idem. Qed.

Lemma simple_similarity_float_lower (q c : str) :
  SimpleRagService.simple_similarity_float (Py.lower q) (Py.lower c)
  = SimpleRagService.simple_similarity_float q c.
Proof. unfold SimpleRagService.simple_similarity_float. by rewrite !lower_idem. Qed.

Lemma simple_similarity_float_lower_query (q c : str) :
  SimpleRagService.simple_similarity_float (Py.lower q) c
  = SimpleRagService.simple_similarity_float q c.
Proof. unfold SimpleRagService.simple_similarity_float. by rewrite !lower_idem. Qed.

Lemma simple_similarity_float_no_tokens (q c : str) :
  tokens q = ∅ → SimpleRagService.simple_similarity_float q c = 0%Q.
Proof.
  intros Hq. unfold SimpleRagService.simple_similarity_float.
  fold (tokens q). by rewrite decide_True.
Qed.

(** X14.  Both scorers compare lowercased text: a score does not change
    when the query or the chunk is lowercased first, so the answers of both
    services are the same for a query and its lowercased form.  The keyword
    query also ignores the user id of the request. *)
Theorem scoring_case_insensitive :
  (∀ q c, SimpleRagService.simple_similarity (Py.lower q) (Py.lower c)
          = SimpleRagService.simple_similarity q c)
  ∧ (∀ s q u k, SimpleRagService.query s (Py.lower q) u k
                = SimpleRagService.query s q u k)
  ∧ (∀ st q k uid uid',
       SimpleWorkingRag.query st (SimpleWorkingRag.mk_query_request (Py.lower q) k uid)
       = SimpleWorkingRag.query st (SimpleWorkingRag.mk_query_request q k uid'))
  ∧ (∀ query_lower doc,
       SimpleWorkingRag.keyword_score query_lower (Py.lower doc)
       = SimpleWorkingRag.keyword_score query_lower doc)
  ∧ (∀ q c, SimpleRagService.simple_similarity_float (Py.lower q) (Py.lower c)
            = SimpleRagService.simple_similarity_float q c).
Proof.
  split; [apply simple_similarity_lower|]. split; [|split; [|split]];
    [| | |apply simple_similarity_float_lower].
  - intros s q u k. unfold SimpleRagService.query, SimpleRagService.top_results.
    assert (Hsim : ∀ docs, SimpleRagService.similarities (Py.lower q) docs
                           = SimpleRagService.similarities q docs).
    { intros docs. unfold SimpleRagService.similarities. apply imap_ext.
      intros i doc _. by rewrite simple_similarity_float_lower_query. }
    by rewrite Hsim.
  - intros st q k uid uid'.
    unfold SimpleWorkingRag.query, SimpleWorkingRag.top_results.
    cbn [SimpleWorkingRag.query_text SimpleWorkingRag.top_k]. by rewrite lower_idem.
  - intros query_lower doc. unfold SimpleWorkingRag.keyword_score.
    by rewrite lower_idem.
Qed.

Lemma reverse_seq_sorted (n : nat) : StronglySorted gt (reverse (seq 0 n)).
Proof.
  induction n as [|n IH]; [constructor|].
  rewrite seq_S, reverse_app. simpl. constructor; [done|].
  apply Forall_forall. intros i Hi. rewrite elem_of_reverse, elem_of_seq in Hi. lia.
Qed.

Lemma sort_reverse_constant_score (l : list nat) (x : Q) :
  StronglySorted gt l →
  sort_reverse ((λ i, (x, i)) <$> reverse l) = (λ i, (x, i)) <$> l.
Proof.
  intros Hl.
  apply (StronglySorted_unique_strong tuple_ge).
  - intros x1 x2 Hx1 Hx2. rewrite elem_of_sort_reverse in Hx1.
    apply list_elem_of_fmap in Hx1 as (i1 & -> & _).
    apply list_elem_of_fmap in Hx2 as (i2 & -> & _).
    rewrite !tuple_ge_spec. simpl. intros [H1|[_ H1]] [H2|[_ H2]]; try lra.
    f_equal. lia.
  - apply sort_reverse_sorted.
  - apply (StronglySorted_fmap _ gt); [|done].
    intros i j Hij. apply tuple_ge_spec. simpl. right. split; [reflexivity|lia].
  - rewrite sort_reverse_perm. apply fmap_Permutation.
    by rewrite reverse_Permutation.
Qed.

(** X15.  In the per-user service a query without word tokens scores every
    chunk 0 and so, for a non-negative [top_k], returns the [top_k] chunks
    added last, newest first, each with distance 0. *)
Theorem query_without_tokens (s : SimpleRagService.SimpleRAG) (q : str)
    (u : string) (k : Z) :
  rag_inv s → tokens q = ∅ → (0 ≤ k)%Z →
  ∃ r, SimpleRagService.query s q u k = Ok r
       ∧ ids r = Py.doc_id <$> take (Z.to_nat k)
                   (reverse (seq 0 (SimpleRagService.get_user_document_count s u)))
       ∧ distances r = replicate (length (ids r)) 0%Q.
Proof.
  intros Hinv Htok Hk.
  destruct (query_shape s q u k Hinv) as (top & locs & rdocs & Hq & Htop & _ & _).
  eexists. split; [exact Hq|]. cbn [ids distances].
  unfold SimpleRagService.get_user_document_count. fold (docs_of s u).
  assert (Hsims : SimpleRagService.similarities q (docs_of s u)
                  = (λ i, (0%Q, i)) <$> reverse (reverse (seq 0 (length (docs_of s u))))).
  { rewrite reverse_involutive, <- imap_seq_0.
    unfold SimpleRagService.similarities. apply imap_ext. intros i doc _.
    simpl. by rewrite simple_similarity_float_no_tokens. }
  rewrite Hsims, sort_reverse_constant_score in Htop by apply reverse_seq_sorted.
  rewrite slice_to_nonneg in Htop by done. rewrite <- fmap_take in Htop.
  rewrite Htop. rewrite <- !list_fmap_compose. split.
  - done.
  - rewrite length_fmap. by apply const_fmap.
Qed.

End case_insensitive.

Lemma query_without_tokens_witness :
  let s := after_ingest
             (after_ingest
                (after_ingest SimpleRagService.init (Py.text_of "one") "a.txt" "t1")
                (Py.text_of "two") "b.txt" "t1")
             (Py.text_of "three") "c.txt" "t1" in
  ∃ r, SimpleRagService.query s (Py.text_of "?!") "t1" 2 = Ok r
       ∧ ids r = ["doc_2"; "doc_1"]%string
       ∧ distances r = [0%Q; 0%Q].
Proof.
  intros s.
  destruct (query_without_tokens s (Py.text_of "?!") "t1" 2) as (r & Hq & Hids & Hd).
  - do 3 apply after_ingest_inv. apply rag_inv_init.
  - reflexivity.
  - lia.
  - exists r. split; [exact Hq|]. split; [exact Hids|].
    rewrite Hd, Hids. reflexivity.
Defined.

(** ** The answers of the command-line pipeline *)
Section pipeline_shape.
Import RagPipelineService.
Context {M : Type}.
Implicit Types (query : str) (docs : list str) (metas : list M).

(** X16.  Whatever the query, the pipeline answers with a prefix of the
    stored documents (none, the leading one, or all of them), with as many
    ids and distances as documents, every distance 0, the ids [doc_0 ..] in
    order; the metadata array has that length too when the store holds one
    metadata record per document. *)
Theorem query_documents_shape query docs metas :
  let r := query_documents query docs metas in
  documents r `prefix_of` docs
  ∧ ids r = Py.doc_id <$> seq 0 (length (documents r))
  ∧ distances r = replicate (length (documents r)) 0%Q
  ∧ (length (documents r) = 0 ∨ length (documents r) = 1 ∨ documents r = docs)
  ∧ (length metas = length docs → metadatas r `prefix_of` metas
       ∧ length (metadatas r) = length (documents r)).
Proof.
  intros r. unfold r, query_documents.
  destruct docs as [|doc0 docs']; [by repeat split; auto; apply prefix_nil|].
  destruct (is_conversational (Py.lower query)).
  { repeat split; auto; apply prefix_nil. }
  destruct (is_translation (Py.lower query)); cbn [documents ids distances metadatas].
  - repeat split; auto.
  - repeat split; auto.
    + by apply prefix_cons, prefix_nil.
    + destruct metas as [|m0 metas']; [done|]. by apply prefix_cons, prefix_nil.
    + by destruct metas.
Qed.

End pipeline_shape.

(** ** The embedding service keeps documents and index in step *)
Section local_store.
Import LocalRagService.
Context {scalar : Type}.
Variable encode : list str → ndarray (scalar := scalar).
Variable read : string → str.

(** A successful [add_documents] on a consistent store. *)
Lemma local_add_documents_ok (s : LocalRAG) (texts : list str)
    (md : option (list Meta)) :
  local_consistent s → texts ≠ [] →
  length (rows (encode texts)) = length texts →
  (∀ old, embeddings s = Some old → ncols (encode texts) = ncols old) →
  (∀ ms, md = Some ms → length ms = length texts) →
  ∃ s',
    add_documents encode s texts md
      = (Ok (Added (length texts) (documents_count s + length texts)), s')
    ∧ local_consistent s'
    ∧ rag_documents s' = rag_documents s ++ texts.
Proof.
  intros [Hmetas Hcons] Hne Hrows Hdim Hmd.
  assert (Hmd' : length (match md with
                         | None => imap (λ i t, mk_meta t (Py.doc_id i)) texts
                         | Some ms => ms
                         end) = length texts).
  { destruct md as [ms|]; [by apply Hmd|apply length_imap]. }
  unfold add_documents, documents_count.
  destruct texts as [|t0 ts]; [done|]. cbv beta iota.
  set (texts := t0 :: ts) in *.
  destruct (embeddings s) as [old|] eqn:Hemb, (index s) as [ix|] eqn:Hix;
    try done.
  - destruct Hcons as (Hd & Hr & Hv).
    unfold vstack, index_add. rewrite (Hdim old eq_refl).
    rewrite decide_True by done. rewrite decide_True by done.
    eexists. split; [by rewrite length_app|]. split; [|done].
    split; cbn [rag_documents rag_metadatas embeddings index ncols rows
                index_d index_vectors].
    + rewrite !length_app. lia.
    + rewrite !length_app. lia.
  - unfold index_add. cbn [index_d]. rewrite decide_True by done.
    rewrite Hcons. eexists. split; [done|]. split; [|done].
    split; cbn [rag_documents rag_metadatas embeddings index ncols rows
                index_d index_vectors]; [done|].
    split; [done|]. split; [done|]. by rewrite app_nil_l.
Qed.

(** X17.  On a consistent store, when the model returns one row per text in
    the established dimension (and the caller gives one metadata record per
    text), [add_documents] succeeds, appends the texts, reports the new
    total, and leaves documents, metadata, embedding rows and index vectors
    lined up.  The reported count is the number of texts for a list of the
    caller's own; for the list the service already holds (the first add
    keeps the caller's list, so adding that list again is this case) the
    documents are doubled and the reported count is the new total. *)
Theorem local_add_documents_consistent (s : LocalRAG) (arg : TextsArg)
    (md : option (list Meta)) :
  let texts := texts_of s arg in
  local_consistent s → texts ≠ [] →
  length (rows (encode texts)) = length texts →
  (∀ old, embeddings s = Some old → ncols (encode texts) = ncols old) →
  (∀ ms, md = Some ms → length ms = length texts) →
  ∃ s',
    add_documents_arg encode s arg md
      = (Ok (Added (match arg with
                    | Fresh _ => length texts
                    | Stored => documents_count s + length texts
                    end)
                   (documents_count s + length texts)), s')
    ∧ local_consistent s'
    ∧ rag_documents s' = rag_documents s ++ texts
    ∧ documents_count s' = documents_count s + length texts.
Proof.
  intros texts Hcons Hne Hrows Hdim Hmd.
  destruct (local_add_documents_ok s texts md Hcons Hne Hrows Hdim Hmd)
    as (s' & Hadd & Hcons' & Hdocs).
  assert (Hcount : documents_count s' = documents_count s + length texts).
  { unfold documents_count. by rewrite Hdocs, length_app. }
  exists s'. split; [|done].
  destruct arg as [ts|]; unfold add_documents_arg; cbn [texts_of] in *.
  - exact Hadd.
  - subst texts. rewrite Hadd. by rewrite <- Hcount.
Qed.

(** X18.  [ingest_file] of the embedding service: a readable file adds
    ceil(len/1000) documents under the same conditions; a file without
    readable text gives the error result and changes nothing. *)
Theorem local_ingest_file (s : LocalRAG) (path : string) (source : option string) :
  local_consistent s →
  let n := ceil_div (length (read path)) 1000 in
  match read path with
  | [] =>
      ingest_file encode read s path source
      = (Ok (IngestError (mk_ingest 0 [] (Some ("No readable text in " +:+ path)))), s)
  | _ :: _ =>
      length (rows (encode (chunk_text (read path)))) = length (chunk_text (read path)) →
      (∀ old, embeddings s = Some old →
         ncols (encode (chunk_text (read path))) = ncols old) →
      ∃ s', ingest_file encode read s path source
            = (Ok (Ingested (Added n (documents_count s + n))), s')
            ∧ local_consistent s'
            ∧ rag_documents s' = rag_documents s ++ chunk_text (read path)
  end.
Proof.
  intros Hcons n. unfold ingest_file.
  destruct (read path) as [|c t] eqn:Hread; [done|].
  rewrite <- Hread in *. intros Hrows Hdim. rewrite Hread in *.
  destruct (chunk_text_cons c t) as (c0 & cs & Hchunks).
  destruct (local_add_documents_ok s (chunk_text (c :: t))
              (Some ((λ _, mk_meta (c :: t) (Py.or_else source path))
                       <$> chunk_text (c :: t))))
    as (s' & Hadd & Hcons' & Hdocs);
    [done | by rewrite Hchunks | done | done | | ].
  - intros ms Hms. apply (inj Some) in Hms. rewrite <- Hms. apply length_fmap.
  - rewrite Hadd. exists s'. split; [|done].
    by rewrite length_chunk_text.
Qed.

End local_store.

(** A list added twice: the second call passes the list the service kept at
    the first call, and reports count 2 for one text. *)
Lemma local_add_documents_consistent_witness :
  let s := (LocalRagService.add_documents toy_encode LocalRagService.init
              [Py.text_of "ab"] None).2 in
  (∃ s', LocalRagService.add_documents_arg toy_encode s LocalRagService.Stored None
         = (Ok (LocalRagService.Added 2 2), s')
         ∧ local_consistent s'
         ∧ LocalRagService.rag_documents s' = [Py.text_of "ab"; Py.text_of "ab"])
  ∧ (∃ s', LocalRagService.add_documents_arg toy_encode s
             (LocalRagService.Fresh [Py.text_of "cd"; Py.text_of "ef"]) None
           = (Ok (LocalRagService.Added 2 3), s')
           ∧ local_consistent s').
Proof.
  intros s. split.
  - destruct (local_add_documents_consistent toy_encode s LocalRagService.Stored None)
      as (s' & Hadd & Hcons & Hdocs & _).
    + vm_compute. repeat split.
    + discriminate.
    + reflexivity.
    + intros old Hold. injection Hold as <-. reflexivity.
    + discriminate.
    + exists s'. split; [exact Hadd|]. split; [exact Hcons|exact Hdocs].
  - destruct (local_add_documents_consistent toy_encode s
                (LocalRagService.Fresh [Py.text_of "cd"; Py.text_of "ef"]) None)
      as (s' & Hadd & Hcons & _ & _).
    + vm_compute. repeat split.
    + discriminate.
    + reflexivity.
    + intros old Hold. injection Hold as <-. reflexivity.
    + discriminate.
    + exists s'. split; [exact Hadd|exact Hcons].
Defined.

Lemma local_ingest_file_witness :
  let read := λ path : string, if decide (path = "a.txt") then Py.text_of "xy" else [] in
  let s := (LocalRagService.add_documents toy_encode LocalRagService.init
              [Py.text_of "ab"] None).2 in
  (∃ s', LocalRagService.ingest_file toy_encode read s "a.txt" None
         = (Ok (LocalRagService.Ingested (LocalRagService.Added 1 2)), s')
         ∧ local_consistent s')
  ∧ LocalRagService.ingest_file toy_encode read s "b.bin" None
    = (Ok (LocalRagService.IngestError
             (mk_ingest 0 [] (Some "No readable text in b.bin"%string))), s).
Proof.
  intros read s. split.
  - destruct (local_ingest_file toy_encode read s "a.txt" None)
      as (s' & Hing & Hcons & _).
    + vm_compute. repeat split.
    + reflexivity.
    + intros old Hold. injection Hold as <-. reflexivity.
    + exists s'. split; [exact Hing|exact Hcons].
  - apply (local_ingest_file toy_encode read s "b.bin" None).
    vm_compute. repeat split.
Defined.

(** ** The ingester in front of the vector store *)
Section rag_impl_texts.
Import RagImplTexts.
Context {Remote : Type}.
Variable ensure_index : Remote → outcome unit * Remote.
Variable add_texts :
  Remote → list str → list (gmap string str) → list string → outcome unit * Remote.
Variable read : string → str.





Lemma set_default_text_keeps (t : str) (m : gmap string str) :
  is_Some (m !! "text"%string) → set_default_text t m = m.
Proof. intros [x Hx]. unfold set_default_text. by rewrite Hx. Qed.


(** X20.  The file ingester of [rag_impl] sends the whole text as one
    document with the fixed id "doc_0", whatever the length of the text and
    whatever was ingested before; it reports count 1 when the store accepts
    it, and when the store raises, the exception is passed on instead of a
    structured error result. *)
Theorem rag_impl_ingest_file_single_document (st : State) (path : string)
    (source : option string) (r0 r1 : Remote) (o : outcome unit) :
  read path ≠ [] →
  (vectorstore_bound st = true ∧ r0 = remote st)
  ∨ (vectorstore_bound st = false ∧ ensure_index (remote st) = (Ok (), r0)) →
  add_texts r0 [read path]
    [meta_dict (RagImpl.mk_meta (read path) (Py.or_else source path))]
    ["doc_0"%string] = (o, r1) →
  ingest_file ensure_index add_texts read st path source
  = (match o with
     | Ok _ => Ok (mk_ingest 1 ["doc_0"%string] None)
     | Raise e => Raise e
     end, mk_state true r1).
Proof.
  intros Hne Hbound Hadd. unfold ingest_file, RagImpl.ingest_file.
  destruct (read path) as [|c t] eqn:Hread; [done|].
  set (m := meta_dict (RagImpl.mk_meta (c :: t) (Py.or_else source path))) in *.
  unfold ingest_texts.
  assert (Hfill : fill_text [m] [c :: t] [0] = (Ok (), [m])).
  { simpl. rewrite set_default_text_keeps; [done|].
    unfold m, meta_dict. cbn [RagImpl.meta_text RagImpl.meta_source].
    by rewrite lookup_insert_eq. }
  assert (Hbind : bind_vectorstore ensure_index st = (Ok (), mk_state true r0)).
  { unfold bind_vectorstore. destruct Hbound as [[Hb ->]|[Hb He]]; rewrite Hb.
    - destruct st as [b r]. simpl in *. by subst b.
    - by rewrite He. }
  rewrite Hbind.
  change (fill_text _ _ _) with (fill_text [m] [c :: t] [0]). rewrite Hfill.
  change (add_texts _ _ _ _) with (add_texts r0 [c :: t] [m] ["doc_0"%string]).
  rewrite Hadd. by destruct o as [[]|].
Qed.


End rag_impl_texts.


Lemma rag_impl_ingest_file_single_document_witness :
  let ensure_index := λ r : list string, (Ok (), r) in
  let add_texts := λ (r : list string) (_ : list str) (_ : list (gmap string str))
                     (ids : list string), (Ok (), r ++ ids) in
  let read := λ _ : string, replicate 2500 "a"%char in
  RagImplTexts.ingest_file ensure_index add_texts read
    (RagImplTexts.mk_state false ["doc_0"%string]) "a.txt" None
  = (Ok (mk_ingest 1 ["doc_0"%string] None),
     RagImplTexts.mk_state true ["doc_0"; "doc_0"]%string).
Proof.
  intros ensure_index add_texts read.
  apply (rag_impl_ingest_file_single_document ensure_index add_texts read
           (RagImplTexts.mk_state false ["doc_0"%string]) "a.txt" None
           ["doc_0"%string] ["doc_0"; "doc_0"]%string (Ok ())).
  - discriminate.
  - right. split; reflexivity.
  - reflexivity.
Defined.


(** ** Files the simple services cannot read *)
Section unreadable_files.
Variable suffix : string → str.
Variable read_text : string → outcome str.
Variable read_docx_file : string → str.
Variable read_pdf_file : string → str.

(** X22.  A path whose extension is, case-insensitively, none of .txt,
    .docx and .pdf, or a .txt file whose reading raises, yields no text: the
    ingest of both simple services then returns the error result
    "No readable text in <path>" and leaves the store untouched. *)
Theorem unsupported_file_is_unreadable (s : SimpleRagService.SimpleRAG)
    (st : SimpleWorkingRag.Store) (path : string) (source user_id : option string) :
  let read := FileReader.read_text_file suffix read_text read_docx_file read_pdf_file in
  path ≠ "" →
  (Py.lower (suffix path) ∉ [Py.text_of ".txt"; Py.text_of ".docx"; Py.text_of ".pdf"])
  ∨ (Py.lower (suffix path) = Py.text_of ".txt" ∧ ∃ e, read_text path = Raise e) →
  let res := mk_ingest 0 [] (Some ("No readable text in " +:+ path)) in
  read path = []
  ∧ SimpleRagService.ingest read s path source user_id
    = (Ok (SimpleRagService.IngestError res), s)
  ∧ SimpleWorkingRag.ingest read st
      (SimpleWorkingRag.mk_ingest_request path source user_id) = (Ok res, st).
Proof.
  intros read Hpath Hcase res.
  assert (Hread : read path = []).
  { unfold read, FileReader.read_text_file. destruct Hcase as [Hnot|[Htxt [e He]]].
    - rewrite !not_elem_of_cons in Hnot. destruct Hnot as (H1 & H2 & H3 & _).
      by rewrite !decide_False.
    - rewrite decide_True by done. by rewrite He. }
  split; [done|]. split.
  - unfold SimpleRagService.ingest, SimpleRagService.ingest_file.
    rewrite decide_False by done. by rewrite Hread.
  - unfold SimpleWorkingRag.ingest. cbn [SimpleWorkingRag.file_path].
    rewrite decide_False by done. by rewrite Hread.
Qed.

End unreadable_files.

Lemma unsupported_file_is_unreadable_witness :
  let suffix := λ _ : string, Py.text_of ".MD" in
  let read_text := λ _ : string, Ok (Py.text_of "some notes") in
  let read := FileReader.read_text_file suffix read_text (λ _, []) (λ _, []) in
  SimpleRagService.ingest read SimpleRagService.init "notes.MD" None None
  = (Ok (SimpleRagService.IngestError
           (mk_ingest 0 [] (Some "No readable text in notes.MD"%string))),
     SimpleRagService.init).
Proof.
  intros suffix read_text read.
  apply (unsupported_file_is_unreadable suffix read_text (λ _, []) (λ _, [])
           SimpleRagService.init SimpleWorkingRag.init "notes.MD" None None).
  - discriminate.
  - left. vm_compute. intros H.
    repeat (apply elem_of_cons in H as [H|H]; [discriminate H|]).
    by apply elem_of_nil in H.
Defined.

(** ** Bounds of the sequence matcher and of the lexical score *)
Section matcher_bounds.
Import Difflib.
Implicit Types (a b : str) (alo ahi blo bhi : nat).













End matcher_bounds.


(** ** [add_documents] and the other users *)
Section add_documents_frame.
Import SimpleRagService.

(** X25.  [add_documents] for user [A] leaves another user [B] as it was --
    documents, metadata, count and every query answer -- provided the
    metadata dictionaries handed in, if any, are not among those stored for
    [B]. *)
Theorem add_documents_isolated (s : SimpleRAG) (texts : list str) (A B : string)
    (md : option (list nat)) (q : str) (k : Z) :
  rag_inv s → A ≠ B →
  (∀ ms l, md = Some ms → l ∈ ms → l ∉ locs_of s B) →
  let s' := (add_documents s texts A md).2 in
  docs_of s' B = docs_of s B
  ∧ user_metas s' B = user_metas s B
  ∧ get_user_document_count s' B = get_user_document_count s B
  ∧ query s' q B k = query s q B k.
Proof.
  intros (Hwf & Hal) Hne Hfresh s'.
  assert (user_documents s' !! B = user_documents s !! B
          ∧ user_metadatas s' !! B = user_metadatas s !! B
          ∧ ∀ l, l ∈ locs_of s B → heap s' !!! l = heap s !!! l) as (Hd & Hm & Hh).
  { unfold s'. destruct (decide (texts = [])) as [->|Htexts]; [done|].
    rewrite add_documents_aligned by done. cbn [snd heap user_documents user_metadatas].
    rewrite !lookup_insert_ne by done. split; [done|]. split; [done|].
    intros l Hl. destruct md as [ms|]; cbn [written_metadata fst].
    - rewrite !list_lookup_total_alt, lookup_foldl_alter by done.
      rewrite decide_False; [by rewrite option_fmap_id|].
      intros Hin. by apply (Hfresh ms l).
    - apply lookup_total_app_l. unfold locs_of in Hl.
      destruct (user_metadatas s !! B) as [ms|] eqn:Hms; simpl in Hl.
      + by eapply Hwf.
      + by apply elem_of_nil in Hl. }
  split; [|split; [|split]].
  - unfold docs_of. by rewrite Hd.
  - by apply user_metas_frame.
  - unfold get_user_document_count. by rewrite Hd.
  - by apply query_frame.
Qed.

End add_documents_frame.

Lemma add_documents_isolated_witness :
  let s := after_ingest SimpleRagService.init (Py.text_of "pears") "b.txt" "bob" in
  let s' := (SimpleRagService.add_documents s [Py.text_of "apples"] "ann" None).2 in
  SimpleRagService.user_metas s' "bob" = SimpleRagService.user_metas s "bob"
  ∧ SimpleRagService.query s' (Py.text_of "pears") "bob" 5
    = SimpleRagService.query s (Py.text_of "pears") "bob" 5.
Proof.
  intros s s'.
  destruct (add_documents_isolated s [Py.text_of "apples"] "ann" "bob" None
              (Py.text_of "pears") 5) as (_ & Hm & _ & Hq).
  - apply after_ingest_inv, rag_inv_init.
  - discriminate.
  - discriminate.
  - split; [exact Hm|exact Hq].
Defined.
